(** * proxy-chain: the plain-forward relay ([src/forward.ts])

    A shallow embedding of [forward], the function that re-sends one client
    request either directly or through an upstream HTTP proxy, together with
    the three callbacks it installs (the response callback, the [socket]
    listener and the [error] listener).

    The synchronous body of [forward] is a function from its three arguments
    to the state of the relay; what Node.js does afterwards is a sequence of
    events, each handled by one step on that state.  Exceptions are values of
    a sum type; the promise returned by [forward] is a three-valued cell. *)

From stdpp Require Import gmap strings list.
From Stdlib Require Import ZArith Ascii String.

Local Open Scope string_scope.
Local Open Scope Z_scope.
Local Open Scope list_scope.

(** ** JavaScript values used by the source *)

(** A JavaScript [Error]; Node's system errors carry a [code]. *)
Record Error := mkError {
  message : string;
  code : option string;
}.

(** A function that may throw. *)
Definition throws (A : Type) : Type := (Error + A)%type.

(** Truthiness of a string: every string but the empty one. *)
Definition truthy (s : string) : bool :=
  match s with
  | EmptyString => false
  | String _ _ => true
  end.

(** The promise handed back to the caller.  Settling is first-come:
    [resolve] and [reject] on a settled promise do nothing. *)
Inductive Promise :=
  | Pending
  | Fulfilled
  | Rejected (reason : Error).

Definition resolve (p : Promise) : Promise :=
  match p with
  | Pending => Fulfilled
  | _ => p
  end.

Definition reject (error : Error) (p : Promise) : Promise :=
  match p with
  | Pending => Rejected error
  | _ => p
  end.

(** ** Node.js objects, reduced to the members [forward] reads or writes *)

(** [http.STATUS_CODES]. *)
Definition STATUS_CODES (status : Z) : option string :=
  match status with
  | 100 => Some "Continue"
  | 101 => Some "Switching Protocols"
  | 102 => Some "Processing"
  | 103 => Some "Early Hints"
  | 200 => Some "OK"
  | 201 => Some "Created"
  | 202 => Some "Accepted"
  | 203 => Some "Non-Authoritative Information"
  | 204 => Some "No Content"
  | 205 => Some "Reset Content"
  | 206 => Some "Partial Content"
  | 207 => Some "Multi-Status"
  | 208 => Some "Already Reported"
  | 226 => Some "IM Used"
  | 300 => Some "Multiple Choices"
  | 301 => Some "Moved Permanently"
  | 302 => Some "Found"
  | 303 => Some "See Other"
  | 304 => Some "Not Modified"
  | 305 => Some "Use Proxy"
  | 307 => Some "Temporary Redirect"
  | 308 => Some "Permanent Redirect"
  | 400 => Some "Bad Request"
  | 401 => Some "Unauthorized"
  | 402 => Some "Payment Required"
  | 403 => Some "Forbidden"
  | 404 => Some "Not Found"
  | 405 => Some "Method Not Allowed"
  | 406 => Some "Not Acceptable"
  | 407 => Some "Proxy Authentication Required"
  | 408 => Some "Request Timeout"
  | 409 => Some "Conflict"
  | 410 => Some "Gone"
  | 411 => Some "Length Required"
  | 412 => Some "Precondition Failed"
  | 413 => Some "Payload Too Large"
  | 414 => Some "URI Too Long"
  | 415 => Some "Unsupported Media Type"
  | 416 => Some "Range Not Satisfiable"
  | 417 => Some "Expectation Failed"
  | 418 => Some "I'm a Teapot"
  | 421 => Some "Misdirected Request"
  | 422 => Some "Unprocessable Entity"
  | 423 => Some "Locked"
  | 424 => Some "Failed Dependency"
  | 425 => Some "Too Early"
  | 426 => Some "Upgrade Required"
  | 428 => Some "Precondition Required"
  | 429 => Some "Too Many Requests"
  | 431 => Some "Request Header Fields Too Large"
  | 451 => Some "Unavailable For Legal Reasons"
  | 500 => Some "Internal Server Error"
  | 501 => Some "Not Implemented"
  | 502 => Some "Bad Gateway"
  | 503 => Some "Service Unavailable"
  | 504 => Some "Gateway Timeout"
  | 505 => Some "HTTP Version Not Supported"
  | 506 => Some "Variant Also Negotiates"
  | 507 => Some "Insufficient Storage"
  | 508 => Some "Loop Detected"
  | 509 => Some "Bandwidth Limit Exceeded"
  | 510 => Some "Not Extended"
  | 511 => Some "Network Authentication Required"
  | _ => None
  end.

(** A parsed WHATWG [URL]: the three components [forward] looks at. *)
Module URL.
Record t := mk {
  origin : string;
  username : string;
  password : string;
}.
End URL.

(** [http.IncomingMessage]: the client's request on the server side, and the
    upstream's response on the client side.  Header lists are raw: names and
    values alternate. *)
Module IncomingMessage.
Record t := mk {
  url : string;
  method : string;
  rawHeaders : list string;
  statusCode : Z;
  statusMessage : string;
}.
End IncomingMessage.

(** What reaches the client connection, in order. *)
Inductive Frame :=
  | Head (status : Z) (reason : string) (headers : list string)
  | Body (chunk : string).

(** [http.ServerResponse], the response to the client.  A response is
    open until its head is out, and then takes body data until it is ended.
    [wire] records what has been handed to the client socket; the headers
    Node adds on its own (date, connection, framing) are left out. *)
Inductive Phase := Open | HeadOut | Ended.

Module ServerResponse.
Record t := mk {
  statusCode : Z;
  ownHeaders : list string;
  phase : Phase;
  wire : list Frame;
}.

(** [response.headersSent]. *)
Definition headersSent (res : t) : bool :=
  match phase res with
  | Open => false
  | HeadOut | Ended => true
  end.

(** A response nothing has been written to. *)
Definition fresh : t :=
  {| statusCode := 200; ownHeaders := []; phase := Open; wire := [] |}.

Definition ERR_HTTP_HEADERS_SENT : Error :=
  mkError "Cannot write headers after they are sent to the client"
          (Some "ERR_HTTP_HEADERS_SENT").

Definition ERR_HTTP_INVALID_STATUS_CODE : Error :=
  mkError "Invalid status code" (Some "ERR_HTTP_INVALID_STATUS_CODE").

(** [response.statusCode = status]. *)
Definition setStatusCode (status : Z) (res : t) : t :=
  {| statusCode := status; ownHeaders := ownHeaders res;
     phase := phase res; wire := wire res |}.

(** [response.setHeader(name, value)]; throws once the head is out. *)
Definition setHeader (name value : string) (res : t) : throws t :=
  if headersSent res then inl ERR_HTTP_HEADERS_SENT
  else inr {| statusCode := statusCode res;
              ownHeaders := ownHeaders res ++ [name; value];
              phase := phase res; wire := wire res |}.

(** [response.writeHead(statusCode, statusMessage, headers)]; throws when
    the head is already out and when the status code is not a three-digit
    number.  Headers set earlier with [setHeader] go out first; [forward]
    sets none before it calls [writeHead]. *)
Definition writeHead (status : Z) (reason : string) (headers : list string)
    (res : t) : throws t :=
  if headersSent res then inl ERR_HTTP_HEADERS_SENT
  else if (status <? 100) || (999 <? status)
  then inl ERR_HTTP_INVALID_STATUS_CODE
  else inr {| statusCode := status; ownHeaders := ownHeaders res;
              phase := HeadOut;
              wire := wire res ++ [Head status reason
                                     (ownHeaders res ++ headers)] |}.

(** The head Node sends by itself when data is written to an open
    response: status line from [statusCode], reason phrase from
    [STATUS_CODES], the headers set so far. *)
Definition implicitHead (res : t) : list Frame :=
  match phase res with
  | Open =>
    [Head (statusCode res)
          (default "unknown" (STATUS_CODES (statusCode res)))
          (ownHeaders res)]
  | HeadOut | Ended => []
  end.

(** [response.write(chunk)], as [pipeline] calls it. *)
Definition write (chunk : string) (res : t) : t :=
  match phase res with
  | Ended => res
  | Open | HeadOut =>
    {| statusCode := statusCode res; ownHeaders := ownHeaders res;
       phase := HeadOut;
       wire := wire res ++ implicitHead res ++ [Body chunk] |}
  end.

(** [response.end(data)]: the implicit head when none is out yet, then
    the data, and the response is closed. *)
Definition end_ (data : option string) (res : t) : t :=
  match phase res with
  | Ended => res
  | Open | HeadOut =>
    {| statusCode := statusCode res; ownHeaders := ownHeaders res;
       phase := Ended;
       wire := wire res ++ implicitHead res
               ++ match data with Some d => [Body d] | None => [] end |}
  end.
End ServerResponse.

(** A [dns.lookup] replacement: host name to addresses. *)
Definition LookupFunction : Type := string → list string.

(** [interface Options] of the source. *)
Module Options.
Record t := mk {
  method : string;
  headers : list string;
  insecureHTTPParser : bool;
  path : option string;
  localAddress : option string;
  family : option Z;
  lookup : option LookupFunction;
}.

(** [options.path = p]. *)
Definition setPath (p : string) (o : t) : t :=
  {| method := method o; headers := headers o;
     insecureHTTPParser := insecureHTTPParser o; path := Some p;
     localAddress := localAddress o; family := family o;
     lookup := lookup o |}.

(** [options.headers.push(name, value)]. *)
Definition pushHeader (name value : string) (o : t) : t :=
  {| method := method o; headers := headers o ++ [name; value];
     insecureHTTPParser := insecureHTTPParser o; path := path o;
     localAddress := localAddress o; family := family o;
     lookup := lookup o |}.
End Options.

(** [interface HandlerOpts] of the source.  [upstreamProxyUrlParsed] is
    tested for truthiness by [forward], so it may be absent. *)
Module HandlerOpts.
Record t := mk {
  upstreamProxyUrlParsed : option URL.t;
  localAddress : option string;
  ipFamily : option Z;
  dnsLookup : option LookupFunction;
  customHttpHeader : option (list string → throws (list string));
}.
End HandlerOpts.

(** [http.request] or [https.request]. *)
Inductive RequestFn := HttpRequest | HttpsRequest.

(** The outbound [http.ClientRequest]: which function made it, the url and
    the options it was made with, and the request-body chunks piped into it
    so far. *)
Module ClientRequest.
Record t := mk {
  fn : RequestFn;
  origin : string;
  options : Options.t;
  piped : list string;
}.

Definition write (chunk : string) (c : t) : t :=
  {| fn := fn c; origin := origin c; options := options c;
     piped := piped c ++ [chunk] |}.
End ClientRequest.

(** What goes on the request line.  [http.request(url, options)] uses
    [options.path] as it stands when it is set, and otherwise the path
    component of [url]. *)
Inductive RequestTarget :=
  | Verbatim (path : string)
  | PathOf (url : string).

Definition requestTarget (c : ClientRequest.t) : RequestTarget :=
  match Options.path (ClientRequest.options c) with
  | Some p => Verbatim p
  | None => PathOf (ClientRequest.origin c)
  end.

(** ** The collaborators imported from [./utils]

    [forward] calls three helpers of the repository.  The relay is defined
    over any implementation of the first two; the third only observes the
    two sockets and is kept as a flag of the relay. *)

Class Utils := {
  (** [validHeadersOnly(rawHeaders)]: the header sanitizer. *)
  validHeadersOnly : list string → list string;
  (** [getBasicAuthorizationHeader(url)]: the Basic-auth encoder. *)
  getBasicAuthorizationHeader : URL.t → throws string;
}.

(** ** The relay *)

(** The variables the closures of [forward] share. *)
Record Relay := mkRelay {
  (** [proxy], read again by the [error] listener *)
  proxy : option URL.t;
  (** the promise [forward] returned *)
  promise : Promise;
  (** [response] *)
  response : ServerResponse.t;
  (** [client], once [http.request] made it *)
  client : option ClientRequest.t;
  (** [pipeline(clientResponse, response)] is awaited *)
  piping : bool;
  (** [countTargetBytes] was attached *)
  counting : bool;
}.

Definition settle (f : Promise → Promise) (st : Relay) : Relay :=
  {| proxy := proxy st; promise := f (promise st); response := response st;
     client := client st; piping := piping st; counting := counting st |}.

Definition withResponse (r : ServerResponse.t) (st : Relay) : Relay :=
  {| proxy := proxy st; promise := promise st; response := r;
     client := client st; piping := piping st; counting := counting st |}.

Definition withClient (c : ClientRequest.t) (st : Relay) : Relay :=
  {| proxy := proxy st; promise := promise st; response := response st;
     client := Some c; piping := piping st; counting := counting st |}.

Definition withPiping (b : bool) (st : Relay) : Relay :=
  {| proxy := proxy st; promise := promise st; response := response st;
     client := client st; piping := b; counting := counting st |}.

Definition withCounting (st : Relay) : Relay :=
  {| proxy := proxy st; promise := promise st; response := response st;
     client := client st; piping := piping st; counting := true |}.

(** What Node.js delivers to the relay after [forward] has returned. *)
Inductive Event :=
  (** [client.once('socket', ...)] *)
  | Socket
  (** [request.pipe(client)] moves a chunk of the request body *)
  | RequestData (chunk : string)
  (** the callback given to [http.request] is called *)
  | Response (clientResponse : IncomingMessage.t)
  (** the awaited [pipeline] moves a chunk of the response body *)
  | Data (chunk : string)
  (** the awaited [pipeline] settles: finished, or failed with an error *)
  | PipelineEnd (failure : option Error)
  (** [client.on('error', ...)] *)
  | ClientError (error : Error).

Definition ERR_407 : Error :=
  mkError "407 Proxy Authentication Required" None.

(** The [statuses] object of the [error] listener. *)
Definition statuses (proxy : option URL.t) : gmap string Z :=
  {[ "ENOTFOUND" := match proxy with Some _ => 502 | None => 404 end;
     "ECONNREFUSED" := 502;
     "ECONNRESET" := 502;
     "EPIPE" := 502;
     "ETIMEDOUT" := 504 ]}.

(** [statuses[error.code!] ?? 502]; an error without a code finds no
    entry.  Codes are the names Node gives to system errors; the property
    names every JavaScript object inherits are not among them. *)
Definition errorStatus (proxy : option URL.t) (error : Error) : Z :=
  default 502 (code error ≫= λ c, statuses proxy !! c).

Section Forward.
Context `{Utils}.

(** The executor of the promise returned by [forward], up to its end.
    It is an [async] function: an exception that leaves it rejects the
    executor's own promise, which nobody holds, and leaves the promise of
    [forward] as it is.  [http.request] is taken to hand back the request
    object; the [socket] and [error] listeners and the pipe of the request
    body are installed with it and show as the events of [step]. *)
Definition forward (request : IncomingMessage.t)
    (response : ServerResponse.t) (handlerOpts : HandlerOpts.t) : Relay :=
  let proxy := HandlerOpts.upstreamProxyUrlParsed handlerOpts in
  let origin :=
    match proxy with
    | Some p => URL.origin p
    | None => IncomingMessage.url request
    end in
  let relay :=
    {| proxy := proxy; promise := Pending; response := response;
       client := None; piping := false; counting := false |} in
  let headers := IncomingMessage.rawHeaders request in
  match
    match HandlerOpts.customHttpHeader handlerOpts with
    | Some hook => hook headers
    | None => inr headers
    end
  with
  | inl _ => relay
  | inr headers =>
    let options :=
      {| Options.method := IncomingMessage.method request;
         Options.headers := validHeadersOnly headers;
         Options.insecureHTTPParser := true;
         Options.path := None;
         Options.localAddress := HandlerOpts.localAddress handlerOpts;
         Options.family := HandlerOpts.ipFamily handlerOpts;
         Options.lookup := HandlerOpts.dnsLookup handlerOpts |} in
    match
      match proxy with
      | Some p =>
        let options :=
          Options.setPath (IncomingMessage.url request) options in
        if truthy (URL.username p) || truthy (URL.password p) then
          match getBasicAuthorizationHeader p with
          | inr value =>
            inr (Options.pushHeader "proxy-authorization" value options)
          | inl error => inl error
          end
        else inr options
      | None => inr options
      end
    with
    | inl error => settle (reject error) relay
    | inr options =>
      let fn :=
        if String.prefix "https:" origin then HttpsRequest
        else HttpRequest in
      withClient
        {| ClientRequest.fn := fn; ClientRequest.origin := origin;
           ClientRequest.options := options; ClientRequest.piped := [] |}
        relay
    end
  end.

(** The callback given to [http.request], up to its [await]. *)
Definition onResponse (clientResponse : IncomingMessage.t) (st : Relay)
    : Relay :=
  let statusCode := IncomingMessage.statusCode clientResponse in
  let statusCode :=
    if (statusCode <? 100) || (statusCode >? 999) then 502
    else statusCode in
  if IncomingMessage.statusCode clientResponse =? 407
  then settle (reject ERR_407) st
  else
    match
      ServerResponse.writeHead statusCode
        (IncomingMessage.statusMessage clientResponse)
        (validHeadersOnly (IncomingMessage.rawHeaders clientResponse))
        (response st)
    with
    | inr r => withPiping true (withResponse r st)
    | inl _ => settle resolve st
    end.

(** The same callback after its [await]: [pipeline] ended the response
    and [resolve()] follows, or it threw and the [catch] resolves. *)
Definition onPipelineEnd (failure : option Error) (st : Relay) : Relay :=
  match failure with
  | None =>
    settle resolve
      (withPiping false
         (withResponse (ServerResponse.end_ None (response st)) st))
  | Some _ => settle resolve (withPiping false st)
  end.

(** The [error] listener of [client]. *)
Definition onError (error : Error) (st : Relay) : Relay :=
  if ServerResponse.headersSent (response st) then st
  else
    let r :=
      ServerResponse.setStatusCode (errorStatus (proxy st) error)
        (response st) in
    match
      ServerResponse.setHeader "content-type" "text/plain; charset=utf-8" r
    with
    | inl _ => st
    | inr r =>
      let r :=
        ServerResponse.end_ (STATUS_CODES (ServerResponse.statusCode r)) r
      in
      settle resolve (withResponse r st)
    end.

(** One event.  Listeners exist only once [client] does, and [pipeline]
    moves data only while it is awaited. *)
Definition step (st : Relay) (ev : Event) : Relay :=
  match client st with
  | None => st
  | Some c =>
    match ev with
    | Socket => withCounting st
    | RequestData chunk => withClient (ClientRequest.write chunk c) st
    | Response clientResponse => onResponse clientResponse st
    | Data chunk =>
      if piping st
      then withResponse (ServerResponse.write chunk (response st)) st
      else st
    | PipelineEnd failure =>
      if piping st then onPipelineEnd failure st else st
    | ClientError error => onError error st
    end
  end.

(** A whole relay: [forward], then the events in order. *)
Definition run (st : Relay) (events : list Event) : Relay :=
  foldl step st events.
End Forward.

(** ** Reading a raw header list *)

Definition lowerAscii (c : ascii) : ascii :=
  let n := N_of_ascii c in
  if ((65 <=? n) && (n <=? 90))%N then ascii_of_N (n + 32) else c.

(** [s.toLowerCase()] on the ASCII letters. *)
Fixpoint toLowerCase (s : string) : string :=
  match s with
  | EmptyString => EmptyString
  | String c rest => String (lowerAscii c) (toLowerCase rest)
  end.

(** The values a raw header list carries under a name (given in lower
    case), in order; names are compared without regard to case. *)
Fixpoint headerValues (name : string) (raw : list string) : list string :=
  match raw with
  | n :: v :: rest =>
    if String.eqb (toLowerCase n) name then v :: headerValues name rest
    else headerValues name rest
  | _ => []
  end.

(** ** The two helpers, from their description

    [src/utils/valid_headers_only] and [src/utils/get_basic] are imported
    by [forward.ts]; what follows renders what the specification says of
    them. *)

Module Spec.

Definition isControl (c : ascii) : bool :=
  let n := N_of_ascii c in ((n <? 32) || (n =? 127))%N.

Fixpoint hasControl (s : string) : bool :=
  match s with
  | EmptyString => false
  | String c rest => isControl c || hasControl rest
  end.

(** The hop-by-hop header names. *)
Definition hopByHop : list string :=
  ["connection"; "keep-alive"; "proxy-authenticate"; "proxy-authorization";
   "te"; "trailer"; "trailers"; "transfer-encoding"; "upgrade"].

Definition isHopByHop (name : string) : bool :=
  existsb (String.eqb (toLowerCase name)) hopByHop.

Definition keep (name value : string) : bool :=
  truthy name && negb (hasControl name) && negb (hasControl value)
  && negb (isHopByHop name).

(** Modelled from the spec: [validHeadersOnly], the Header Sanitizer,
    whose file [src/utils/valid_headers_only] is missing.  A pure filter
    on the alternating name/value sequence that silently drops the
    entries with an empty name, with a control character, or with a
    hop-by-hop name, and keeps the others in order. *)
Fixpoint validHeadersOnly (rawHeaders : list string) : list string :=
  match rawHeaders with
  | name :: value :: rest =>
    if keep name value then name :: value :: validHeadersOnly rest
    else validHeadersOnly rest
  | _ => []
  end.

Definition alphabet : string :=
  "ABCDEFGHIJKLMNOPQRSTUVWXYZabcdefghijklmnopqrstuvwxyz0123456789+/".

Definition sextet (n : N) : ascii :=
  default "="%char (String.get (N.to_nat n) alphabet).

(** Base64 (RFC 4648) of a byte string. *)
Fixpoint base64 (s : string) : string :=
  match s with
  | EmptyString => EmptyString
  | String a EmptyString =>
    let n := (N_of_ascii a * 65536)%N in
    String (sextet (n / 262144)) (String (sextet (n / 4096 mod 64)) "==")
  | String a (String b EmptyString) =>
    let n := (N_of_ascii a * 65536 + N_of_ascii b * 256)%N in
    String (sextet (n / 262144)) (String (sextet (n / 4096 mod 64))
      (String (sextet (n / 64 mod 64)) "="))
  | String a (String b (String c rest)) =>
    let n := (N_of_ascii a * 65536 + N_of_ascii b * 256 + N_of_ascii c)%N in
    String (sextet (n / 262144)) (String (sextet (n / 4096 mod 64))
      (String (sextet (n / 64 mod 64)) (String (sextet (n mod 64))
        (base64 rest))))
  end.

Definition EncodingError : Error := mkError "EncodingError" None.

(** The credential string of a url: [username:password]. *)
Definition credentials (url : URL.t) : string :=
  String.append (URL.username url)
    (String.append ":" (URL.password url)).

(** Modelled from the spec: [getBasicAuthorizationHeader], the Basic-Auth
    Encoder, whose file [src/utils/get_basic] is missing.  It
    yields [Basic <base64(username:password)>] and fails with an
    EncodingError when the credential string cannot be represented; which
    strings can is left to [representable]. *)
Definition getBasicAuthorizationHeader (representable : string → bool)
    (url : URL.t) : throws string :=
  if representable (credentials url)
  then inr (String.append "Basic " (base64 (credentials url)))
  else inl EncodingError.

(** Credentials free of control characters. *)
Definition printable (s : string) : bool := negb (hasControl s).

End Spec.

(** The two helpers as [forward] imports them. *)
Definition specUtils (representable : string → bool) : Utils :=
  {| validHeadersOnly := Spec.validHeadersOnly;
     getBasicAuthorizationHeader :=
       Spec.getBasicAuthorizationHeader representable |}.


(** The raw request headers after the custom-header hook, as the first
    lines of [forward] compute them. *)
Definition hookedHeaders (request : IncomingMessage.t)
    (handlerOpts : HandlerOpts.t) : throws (list string) :=
  match HandlerOpts.customHttpHeader handlerOpts with
  | Some hook => hook (IncomingMessage.rawHeaders request)
  | None => inr (IncomingMessage.rawHeaders request)
  end.

(** ** Examples used throughout *)

Definition exampleRequest : IncomingMessage.t :=
  {| IncomingMessage.url := "http://example.test/page";
     IncomingMessage.method := "GET";
     IncomingMessage.rawHeaders :=
       ["Host"; "example.test"; "Proxy-Authorization"; "Basic Y2xpZW50";
        "Accept"; "*/*"];
     IncomingMessage.statusCode := 0;
     IncomingMessage.statusMessage := "" |}.

Definition exampleUpstream : URL.t :=
  {| URL.origin := "http://upstream.test:443";
     URL.username := "user"; URL.password := "pass" |}.

Definition direct : HandlerOpts.t :=
  {| HandlerOpts.upstreamProxyUrlParsed := None;
     HandlerOpts.localAddress := None; HandlerOpts.ipFamily := None;
     HandlerOpts.dnsLookup := None; HandlerOpts.customHttpHeader := None |}.

Definition via (upstream : URL.t) : HandlerOpts.t :=
  {| HandlerOpts.upstreamProxyUrlParsed := Some upstream;
     HandlerOpts.localAddress := None; HandlerOpts.ipFamily := None;
     HandlerOpts.dnsLookup := None; HandlerOpts.customHttpHeader := None |}.

(** An upstream response with the given status line. *)
Definition upstreamResponse (status : Z) (reason : string)
    : IncomingMessage.t :=
  {| IncomingMessage.url := ""; IncomingMessage.method := "";
     IncomingMessage.rawHeaders :=
       ["Content-Type"; "text/html"; "Connection"; "close"];
     IncomingMessage.statusCode := status;
     IncomingMessage.statusMessage := reason |}.

(** A hook that throws. *)
Definition failingHook : list string → throws (list string) :=
  λ _, inl (mkError "custom header hook failed" None).

Definition withFailingHook : HandlerOpts.t :=
  {| HandlerOpts.upstreamProxyUrlParsed := None;
     HandlerOpts.localAddress := None; HandlerOpts.ipFamily := None;
     HandlerOpts.dnsLookup := None;
     HandlerOpts.customHttpHeader := Some failingHook |}.

(** An upstream url whose username holds a control character (BEL). *)
Definition unprintableUpstream : URL.t :=
  {| URL.origin := "http://upstream.test:443";
     URL.username := String "007"%char "user"; URL.password := "pass" |}.

(** The example request, relayed directly and through the example
    upstream, with the helpers of [Spec]. *)
Definition directRelay : Relay :=
  forward (H := specUtils Spec.printable) exampleRequest
    ServerResponse.fresh direct.

Definition proxiedRelay : Relay :=
  forward (H := specUtils Spec.printable) exampleRequest
    ServerResponse.fresh (via exampleUpstream).

(** Events delivered with the helpers of [Spec]. *)
Definition specStep : Relay → Event → Relay :=
  step (H := specUtils Spec.printable).

Definition specRun : Relay → list Event → Relay :=
  run (H := specUtils Spec.printable).

Definition ECONNREFUSED : Error :=
  mkError "connect ECONNREFUSED" (Some "ECONNREFUSED").

(** ** The hooks of [examples/customheader.js] *)

Module Example.
(** [customTcpHeader(rawHeaders)], the hook of the tunnel leg. *)
Definition customTcpHeader (rawHeaders : list string)
    : throws (list string) :=
  inr ("Proxy-Connection" :: "Keep-Alive"
       :: "User-Agent" :: "baiduboxapp/13.7.0.12 (Baidu; P1 12) NABar/1.0"
       :: rawHeaders).

(** [customHttpHeader(rawHeaders)], the hook [forward] calls. *)
Definition customHttpHeader (rawHeaders : list string)
    : throws (list string) :=
  inr ("User-Agent" :: "baiduboxapp/13.7.0.12 (Baidu; P1 12) NABar/1.0"
       :: rawHeaders).
End Example.

(** ** Reading a trace and a wire *)

Definition isBody (f : Frame) : bool :=
  match f with
  | Body _ => true
  | Head _ _ _ => false
  end.

(** A response is framed when its wire is empty while it is open, and is
    one head followed by body chunks only once the head is out. *)
Definition framed (res : ServerResponse.t) : bool :=
  match ServerResponse.phase res, ServerResponse.wire res with
  | Open, [] => true
  | (HeadOut | Ended), Head _ _ _ :: rest => forallb isBody rest
  | _, _ => false
  end.

(** The request-body chunks of a trace, in order. *)
Definition requestChunks (events : list Event) : list string :=
  omap (λ ev, match ev with RequestData chunk => Some chunk | _ => None end)
    events.

(** The events of the response direction: everything but the request body
    and the socket notification. *)
Definition clientFacing (ev : Event) : bool :=
  match ev with
  | Socket | RequestData _ => false
  | Response _ | Data _ | PipelineEnd _ | ClientError _ => true
  end.

Definition isSocket (ev : Event) : bool :=
  match ev with
  | Socket => true
  | _ => false
  end.

(** Two relays that look the same from the client's side. *)
Definition sameClientSide (st1 st2 : Relay) : Prop :=
  response st1 = response st2 ∧ promise st1 = promise st2
  ∧ piping st1 = piping st2 ∧ proxy st1 = proxy st2
  ∧ (client st1 = None ↔ client st2 = None).

(** The url the outbound request is made for, as [forward] picks it. *)
Definition outboundOrigin (request : IncomingMessage.t)
    (handlerOpts : HandlerOpts.t) : string :=
  match HandlerOpts.upstreamProxyUrlParsed handlerOpts with
  | Some p => URL.origin p
  | None => IncomingMessage.url request
  end.

(** The status the response callback hands to [writeHead]. *)
Definition clamped (status : Z) : Z :=
  if (status <? 100) || (status >? 999) then 502 else status.

(** An upstream url without credentials, as
    [new URL('http://cloudnproxy.baidu.com:443')] parses. *)
Definition plainUpstream : URL.t :=
  {| URL.origin := "http://cloudnproxy.baidu.com:443";
     URL.username := ""; URL.password := "" |}.

Definition viaWithHook (upstream : URL.t)
    (hook : list string → throws (list string)) : HandlerOpts.t :=
  {| HandlerOpts.upstreamProxyUrlParsed := Some upstream;
     HandlerOpts.localAddress := Some "10.0.0.7";
     HandlerOpts.ipFamily := Some 4;
     HandlerOpts.dnsLookup := None; HandlerOpts.customHttpHeader := Some hook |}.

(** An [https] request, as a client sends it to the proxy. *)
Definition secureRequest : IncomingMessage.t :=
  {| IncomingMessage.url := "https://example.test/page";
     IncomingMessage.method := "POST";
     IncomingMessage.rawHeaders :=
       ["Host"; "example.test"; "User-Agent"; "curl/8.0"];
     IncomingMessage.statusCode := 0;
     IncomingMessage.statusMessage := "" |}.

(** An encoder that always throws, beside the sanitizer of [Spec]. *)
Definition refusingUtils : Utils :=
  {| validHeadersOnly := Spec.validHeadersOnly;
     getBasicAuthorizationHeader := λ _, inl Spec.EncodingError |}.

Definition ENOTFOUND : Error :=
  mkError "getaddrinfo ENOTFOUND" (Some "ENOTFOUND").

Definition ETIMEDOUT : Error :=
  mkError "connect ETIMEDOUT" (Some "ETIMEDOUT").

(** * Properties *)

(** Destructs every [match] of the goal, keeping the equations. *)
Ltac cases := repeat case_match; simpl in *; simplify_eq/=.

Example base64_user_pass : Spec.base64 "user:pass" = "dXNlcjpwYXNz".
Proof. reflexivity. Qed.

Example base64_padding :
  Spec.base64 "a" = "YQ==" ∧ Spec.base64 "ab" = "YWI=" ∧ Spec.base64 "" = "".
Proof. repeat split; reflexivity. Qed.

Section Properties.
Context `{Utils}.

(** [forward] touches neither the response nor the flags, and remembers
    the upstream url. *)
Lemma forward_frame request res handlerOpts :
  let st := forward request res handlerOpts in
  response st = res ∧ piping st = false ∧ counting st = false
  ∧ proxy st = HandlerOpts.upstreamProxyUrlParsed handlerOpts.
Proof. unfold forward. cases; auto. Qed.

(** What [forward] made the outbound request with, when it made one. *)
Lemma forward_client request res handlerOpts c :
  client (forward request res handlerOpts) = Some c →
  ∃ headers,
    hookedHeaders request handlerOpts = inr headers
    ∧ ClientRequest.piped c = []
    ∧ Options.method (ClientRequest.options c)
      = IncomingMessage.method request
    ∧ match HandlerOpts.upstreamProxyUrlParsed handlerOpts with
      | None =>
        ClientRequest.origin c = IncomingMessage.url request
        ∧ Options.path (ClientRequest.options c) = None
        ∧ Options.headers (ClientRequest.options c)
          = validHeadersOnly headers
      | Some p =>
        ClientRequest.origin c = URL.origin p
        ∧ Options.path (ClientRequest.options c)
          = Some (IncomingMessage.url request)
        ∧ if truthy (URL.username p) || truthy (URL.password p)
          then ∃ value,
            getBasicAuthorizationHeader p = inr value
            ∧ Options.headers (ClientRequest.options c)
              = validHeadersOnly headers ++ ["proxy-authorization"; value]
          else Options.headers (ClientRequest.options c)
               = validHeadersOnly headers
      end.
Proof.
  unfold forward, hookedHeaders. intros Hc.
  destruct (match HandlerOpts.customHttpHeader handlerOpts with
            | Some hook => hook (IncomingMessage.rawHeaders request)
            | None => inr (IncomingMessage.rawHeaders request)
            end) as [e|headers]; [discriminate|].
  exists headers. split; [done|].
  destruct (HandlerOpts.upstreamProxyUrlParsed handlerOpts) as [p|].
  - destruct (truthy (URL.username p) || truthy (URL.password p)).
    + destruct (getBasicAuthorizationHeader p) as [e|value];
        [discriminate|].
      injection Hc as <-. simpl. eauto 10.
    + injection Hc as <-. simpl. auto.
  - injection Hc as <-. simpl. auto.
Qed.

(** C1.  When [forward] makes the outbound request: with an upstream
    proxy the request goes to the proxy's origin and its path is
    [request.url] as it stands (absolute-URI form); without one the
    request goes to [request.url] itself, no path is set, and so the
    request line carries the path component of that url.  The path is the
    verbatim [request.url] exactly when a proxy is configured. *)
Theorem outbound_path_absolute_iff_proxy request res handlerOpts c :
  client (forward request res handlerOpts) = Some c →
  (∀ p, HandlerOpts.upstreamProxyUrlParsed handlerOpts = Some p →
     ClientRequest.origin c = URL.origin p
     ∧ Options.path (ClientRequest.options c)
       = Some (IncomingMessage.url request)
     ∧ requestTarget c = Verbatim (IncomingMessage.url request))
  ∧ (HandlerOpts.upstreamProxyUrlParsed handlerOpts = None →
     ClientRequest.origin c = IncomingMessage.url request
     ∧ Options.path (ClientRequest.options c) = None
     ∧ requestTarget c = PathOf (IncomingMessage.url request))
  ∧ (requestTarget c = Verbatim (IncomingMessage.url request)
     ↔ is_Some (HandlerOpts.upstreamProxyUrlParsed handlerOpts)).
Proof.
  intros Hc. apply forward_client in Hc as (headers & _ & _ & _ & Hc).
  unfold requestTarget.
  destruct (HandlerOpts.upstreamProxyUrlParsed handlerOpts) as [p|].
  - destruct Hc as (-> & -> & _).
    split; [intros ? [= <-]; auto | split; [done | split; eauto]].
  - destruct Hc as (-> & -> & _).
    split; [done | split; [auto | ]].
    split; [done | intros [? [=]]].
Qed.

Lemma in_range (s : Z) :
  100 ≤ s ≤ 999 → (s <? 100) || (s >? 999) = false.
Proof.
  intros. rewrite Z.gtb_ltb. apply orb_false_intro; apply Z.ltb_ge; lia.
Qed.

Lemma out_of_range (s : Z) :
  s < 100 ∨ 999 < s → (s <? 100) || (s >? 999) = true.
Proof.
  intros. rewrite Z.gtb_ltb. apply orb_true_iff.
  rewrite !Z.ltb_lt. done.
Qed.

(** The response callback on an open response and a status other than
    407: the head goes out with the clamped status, the upstream's reason
    phrase and the sanitized upstream headers, and the pipeline starts. *)
Lemma onResponse_open clientResponse st :
  ServerResponse.headersSent (response st) = false →
  IncomingMessage.statusCode clientResponse ≠ 407 →
  let status := IncomingMessage.statusCode clientResponse in
  let sent := if (status <? 100) || (status >? 999) then 502 else status in
  onResponse clientResponse st =
  withPiping true
    (withResponse
       {| ServerResponse.statusCode := sent;
          ServerResponse.ownHeaders :=
            ServerResponse.ownHeaders (response st);
          ServerResponse.phase := HeadOut;
          ServerResponse.wire :=
            ServerResponse.wire (response st)
            ++ [Head sent
                     (IncomingMessage.statusMessage clientResponse)
                     (ServerResponse.ownHeaders (response st)
                      ++ validHeadersOnly
                           (IncomingMessage.rawHeaders clientResponse))]
       |} st).
Proof.
  intros Hopen Hne status sent. unfold onResponse, ServerResponse.writeHead.
  fold status. fold sent. rewrite Hopen.
  destruct (status =? 407) eqn:E; [apply Z.eqb_eq in E; done|].
  assert (100 ≤ sent ≤ 999) as Hsent.
  { subst sent. destruct (Z.ltb_spec status 100); simpl; [lia|].
    rewrite Z.gtb_ltb. destruct (Z.ltb_spec 999 status); lia. }
  replace (sent <? 100) with false by (symmetry; apply Z.ltb_ge; lia).
  replace (999 <? sent) with false by (symmetry; apply Z.ltb_ge; lia).
  done.
Qed.

(** C3.  On an open response, an upstream status in [100,999] other than
    407 reaches the client as it is, and an upstream status outside
    [100,999] reaches the client as 502; in the second case the promise
    is left as it was, the pipeline runs, and its end resolves the
    relay. *)
Theorem status_code_relayed_or_replaced st c clientResponse :
  client st = Some c →
  ServerResponse.headersSent (response st) = false →
  let status := IncomingMessage.statusCode clientResponse in
  let st' := step st (Response clientResponse) in
  let head s :=
    Head s (IncomingMessage.statusMessage clientResponse)
      (ServerResponse.ownHeaders (response st)
       ++ validHeadersOnly (IncomingMessage.rawHeaders clientResponse)) in
  (100 ≤ status ≤ 999 → status ≠ 407 →
     ServerResponse.wire (response st')
     = ServerResponse.wire (response st) ++ [head status])
  ∧ (status < 100 ∨ 999 < status →
     ServerResponse.wire (response st')
     = ServerResponse.wire (response st) ++ [head 502]
     ∧ promise st' = promise st
     ∧ piping st' = true
     ∧ ∀ failure,
         promise (step st' (PipelineEnd failure)) = resolve (promise st)).
Proof.
  intros Hc Hopen status st' head. subst status st' head.
  unfold step. rewrite Hc. split.
  - intros Hrange Hne. rewrite onResponse_open by done. simpl.
    by rewrite in_range.
  - intros Hout. rewrite onResponse_open by first [done | lia]. simpl.
    rewrite out_of_range by done.
    rewrite Hc. repeat split; try done. by intros [e|].
Qed.

(** C10.  When the upstream status is outside [100,999] and 502 is sent
    in its place, the head written to the client still carries the
    upstream's own status message. *)
Theorem replaced_status_keeps_status_message st c clientResponse :
  client st = Some c →
  ServerResponse.headersSent (response st) = false →
  IncomingMessage.statusCode clientResponse < 100
  ∨ 999 < IncomingMessage.statusCode clientResponse →
  ∃ headers,
    ServerResponse.wire (response (step st (Response clientResponse)))
    = ServerResponse.wire (response st)
      ++ [Head 502 (IncomingMessage.statusMessage clientResponse) headers].
Proof.
  intros Hc Hopen Hout. eexists.
  unfold step. rewrite Hc, onResponse_open by first [done | lia]. simpl.
  by rewrite out_of_range.
Qed.
(** Body chunks offered while no pipeline is awaited go nowhere. *)
Lemma run_data_idle st chunks :
  piping st = false → run st (Data <$> chunks) = st.
Proof.
  intros Hidle. induction chunks as [|chunk chunks IH]; [done|].
  unfold run in *. simpl. unfold step at 2.
  destruct (client st); by rewrite ?Hidle.
Qed.

(** C4.  When the upstream answers 407, the response callback leaves the
    client response untouched (no head, no body), starts no pipeline, and
    rejects the promise with the 407 error; body chunks of that response
    never reach the client. *)
Theorem proxy_auth_required_rejected st c clientResponse :
  client st = Some c →
  IncomingMessage.statusCode clientResponse = 407 →
  let st' := step st (Response clientResponse) in
  response st' = response st
  ∧ piping st' = piping st
  ∧ promise st' = reject ERR_407 (promise st)
  ∧ (promise st = Pending → promise st' = Rejected ERR_407)
  ∧ (piping st = false →
     ∀ chunks, response (run st' (Data <$> chunks)) = response st).
Proof.
  intros Hc H407 st'. subst st'. unfold step. rewrite Hc.
  unfold onResponse. rewrite H407. simpl.
  repeat split; try done.
  - by intros ->.
  - intros Hidle chunks. by rewrite run_data_idle.
Qed.

(** The status the [error] listener picks, cause by cause. *)
Lemma errorStatus_table upstream error :
  (code error = Some "ENOTFOUND" →
     errorStatus upstream error
     = match upstream with Some _ => 502 | None => 404 end)
  ∧ (code error = Some "ECONNREFUSED" → errorStatus upstream error = 502)
  ∧ (code error = Some "ECONNRESET" → errorStatus upstream error = 502)
  ∧ (code error = Some "EPIPE" → errorStatus upstream error = 502)
  ∧ (code error = Some "ETIMEDOUT" → errorStatus upstream error = 504)
  ∧ (code error ∉ [Some "ENOTFOUND"; Some "ECONNREFUSED";
                    Some "ECONNRESET"; Some "EPIPE"; Some "ETIMEDOUT"] →
     errorStatus upstream error = 502).
Proof.
  unfold errorStatus, statuses.
  repeat split; try (intros ->; simpl; by simplify_map_eq).
  intros Hother. destruct (code error) as [c|]; [simpl|done].
  rewrite !lookup_insert_ne by (intros <-; apply Hother; set_solver).
  rewrite lookup_singleton_ne; [done|].
  intros <-; apply Hother; set_solver.
Qed.

Lemma errorStatus_values upstream error :
  errorStatus upstream error = 404 ∨ errorStatus upstream error = 502
  ∨ errorStatus upstream error = 504.
Proof.
  unfold errorStatus, statuses.
  destruct (code error) as [c|]; simpl; [|auto].
  repeat (rewrite lookup_insert; case_decide; simpl;
          [destruct upstream; auto|]).
  rewrite lookup_singleton. case_decide; auto.
Qed.

(** The [error] listener on an open response. *)
Lemma onError_open error st :
  ServerResponse.headersSent (response st) = false →
  let status := errorStatus (proxy st) error in
  onError error st =
  settle resolve
    (withResponse
       {| ServerResponse.statusCode := status;
          ServerResponse.ownHeaders :=
            ServerResponse.ownHeaders (response st)
            ++ ["content-type"; "text/plain; charset=utf-8"];
          ServerResponse.phase := Ended;
          ServerResponse.wire :=
            ServerResponse.wire (response st)
            ++ [Head status (default "unknown" (STATUS_CODES status))
                  (ServerResponse.ownHeaders (response st)
                   ++ ["content-type"; "text/plain; charset=utf-8"])]
            ++ match STATUS_CODES status with
               | Some phrase => [Body phrase]
               | None => []
               end |} st).
Proof.
  intros Hopen status. unfold onError. rewrite Hopen.
  unfold ServerResponse.setHeader, ServerResponse.setStatusCode,
    ServerResponse.headersSent in *. simpl.
  by destruct (ServerResponse.phase (response st)) eqn:Hphase.
Qed.

(** C5.  An outbound connection error while the response is still open
    gives the client the status that belongs to the cause of the error:
    404 for an unresolvable target without an upstream proxy and 502 with
    one; 502 for a refused connection, a reset connection and a broken
    pipe; 504 for a timeout; 502 for anything else.  The body is the
    standard reason phrase of that status, and the relay is resolved. *)
Theorem connection_error_status st c error :
  client st = Some c →
  ServerResponse.headersSent (response st) = false →
  let status := errorStatus (proxy st) error in
  let st' := step st (ClientError error) in
  ((code error = Some "ENOTFOUND" →
      status = match proxy st with Some _ => 502 | None => 404 end)
   ∧ (code error = Some "ECONNREFUSED" → status = 502)
   ∧ (code error = Some "ECONNRESET" → status = 502)
   ∧ (code error = Some "EPIPE" → status = 502)
   ∧ (code error = Some "ETIMEDOUT" → status = 504)
   ∧ (code error ∉ [Some "ENOTFOUND"; Some "ECONNREFUSED";
                     Some "ECONNRESET"; Some "EPIPE"; Some "ETIMEDOUT"] →
      status = 502))
  ∧ ∃ phrase,
      STATUS_CODES status = Some phrase
      ∧ ServerResponse.statusCode (response st') = status
      ∧ ServerResponse.wire (response st')
        = ServerResponse.wire (response st)
          ++ [Head status phrase
                (ServerResponse.ownHeaders (response st)
                 ++ ["content-type"; "text/plain; charset=utf-8"]);
              Body phrase]
      ∧ promise st' = resolve (promise st).
Proof.
  intros Hc Hopen status st'. subst status st'.
  split; [apply errorStatus_table|].
  unfold step. rewrite Hc, onError_open by done. simpl.
  destruct (errorStatus_values (proxy st) error) as [-> | [-> | ->]];
    simpl; eauto.
Qed.

(** C6.  An outbound connection error once the head is out changes
    nothing: the listener writes no status line and no body and settles
    nothing.  The relay is then resolved, never rejected, when the
    awaited pipeline settles, and nothing more is written for the error.
    Put the other way round, the listener writes only on a response whose
    head is not out. *)
Theorem error_after_headers_sent st error :
  (ServerResponse.headersSent (response st) = true →
     step st (ClientError error) = st
     ∧ ∀ c failure, client st = Some c → piping st = true →
         let st' :=
           step (step st (ClientError error)) (PipelineEnd failure) in
         promise st' = resolve (promise st)
         ∧ (promise st = Pending → promise st' = Fulfilled)
         ∧ ServerResponse.wire (response st')
           = ServerResponse.wire (response st))
  ∧ (response (step st (ClientError error)) ≠ response st →
     ServerResponse.headersSent (response st) = false).
Proof.
  assert (ServerResponse.headersSent (response st) = true →
          step st (ClientError error) = st) as Hsame.
  { intros Hsent. unfold step, onError. rewrite Hsent.
    by destruct (client st). }
  split.
  - intros Hsent. split; [by apply Hsame|].
    intros c failure Hc Hpiping st'. subst st'. rewrite Hsame by done.
    unfold step. rewrite Hc, Hpiping.
    destruct failure as [cause|]; simpl.
    + repeat split; try done. by intros ->.
    + repeat split; try done; [by intros ->|].
      unfold ServerResponse.headersSent in Hsent.
      unfold ServerResponse.end_, ServerResponse.implicitHead.
      destruct (ServerResponse.phase (response st)); try done.
      simpl. by rewrite app_nil_r.
  - intros Hchanged.
    destruct (ServerResponse.headersSent (response st)) eqn:Hsent; [|done].
    by rewrite Hsame in Hchanged.
Qed.

(** Without an outbound request no event has a listener. *)
Lemma run_no_client st events : client st = None → run st events = st.
Proof.
  intros Hnone. induction events as [|ev events IH]; [done|].
  unfold run in *. simpl. unfold step at 2. by rewrite Hnone.
Qed.

(** A settled promise stays as it is: no event settles a relay twice. *)
Lemma settled_is_final st ev :
  promise st ≠ Pending → promise (step st ev) = promise st.
Proof.
  intros Hsettled. unfold step.
  destruct (client st); [|done].
  destruct ev as [|chunk|clientResponse|chunk|failure|error]; simpl;
    try done.
  - unfold onResponse.
    destruct (IncomingMessage.statusCode clientResponse =? 407); simpl;
      [by destruct (promise st)|].
    destruct (ServerResponse.writeHead _ _ _ _); simpl;
      [by destruct (promise st) | done].
  - by destruct (piping st).
  - destruct (piping st); [|done].
    destruct failure; simpl; by destruct (promise st).
  - unfold onError.
    destruct (ServerResponse.headersSent (response st)); [done|].
    destruct (ServerResponse.setHeader _ _ _); simpl;
      [done | by destruct (promise st)].
Qed.

(** C7.  When the upstream proxy carries credentials and encoding them
    throws, [forward] rejects the promise with that very error, makes no
    outbound request and writes nothing to the client; nothing happens
    afterwards either, so the encoding is not tried again. *)
Theorem credential_encoding_failure_rejects request res handlerOpts
    p headers error :
  HandlerOpts.upstreamProxyUrlParsed handlerOpts = Some p →
  truthy (URL.username p) || truthy (URL.password p) = true →
  hookedHeaders request handlerOpts = inr headers →
  getBasicAuthorizationHeader p = inl error →
  let st := forward request res handlerOpts in
  promise st = Rejected error
  ∧ client st = None
  ∧ response st = res
  ∧ ∀ events, run st events = st.
Proof.
  intros Hp Hcred Hhook Henc st.
  assert (promise st = Rejected error ∧ client st = None
          ∧ response st = res) as (? & Hnone & ?).
  { subst st. unfold forward, hookedHeaders in *.
    rewrite Hp, Hhook. simpl. rewrite Hcred, Henc. done. }
  repeat split; try done. intros events. by apply run_no_client.
Qed.

(** C9 (the header-hook path).  When the custom-header hook throws,
    [forward] returns a promise that is neither resolved nor rejected,
    with no outbound request behind it; whatever happens afterwards, the
    promise stays pending. *)
Theorem hook_failure_leaves_relay_pending request res handlerOpts
    hook error :
  HandlerOpts.customHttpHeader handlerOpts = Some hook →
  hook (IncomingMessage.rawHeaders request) = inl error →
  let st := forward request res handlerOpts in
  promise st = Pending
  ∧ client st = None
  ∧ ∀ events, promise (run st events) = Pending.
Proof.
  intros Hhook Hthrows st.
  assert (promise st = Pending ∧ client st = None) as [Hpending Hnone].
  { subst st. unfold forward. by rewrite Hhook, Hthrows. }
  repeat split; try done. intros events. by rewrite run_no_client.
Qed.
(** C8, as the code has it.  Every header sequence taken over from a peer
    goes through the sanitizer before it is sent on.  The outbound
    request carries the sanitized (hook-transformed) request headers,
    followed, when the upstream url has credentials, by the relay's own
    [proxy-authorization] pair, which is appended after the sanitizing
    and not sanitized again.  The head written by the response callback
    carries the sanitized upstream headers. *)
Theorem peer_headers_sanitized request res handlerOpts c :
  client (forward request res handlerOpts) = Some c →
  (∃ headers own,
     hookedHeaders request handlerOpts = inr headers
     ∧ Options.headers (ClientRequest.options c)
       = validHeadersOnly headers ++ own
     ∧ (own = []
        ∨ ∃ p value,
            HandlerOpts.upstreamProxyUrlParsed handlerOpts = Some p
            ∧ truthy (URL.username p) || truthy (URL.password p) = true
            ∧ getBasicAuthorizationHeader p = inr value
            ∧ own = ["proxy-authorization"; value]))
  ∧ ∀ st clientResponse,
      let before := ServerResponse.wire (response st) in
      let after :=
        ServerResponse.wire (response (step st (Response clientResponse)))
      in
      after = before
      ∨ ∃ status,
          after
          = before
            ++ [Head status (IncomingMessage.statusMessage clientResponse)
                  (ServerResponse.ownHeaders (response st)
                   ++ validHeadersOnly
                        (IncomingMessage.rawHeaders clientResponse))].
Proof.
  intros Hc. split.
  - apply forward_client in Hc as (headers & Hhook & _ & _ & Hc).
    exists headers.
    destruct (HandlerOpts.upstreamProxyUrlParsed handlerOpts) as [p|].
    + destruct Hc as (_ & _ & Hc).
      destruct (truthy (URL.username p) || truthy (URL.password p)) eqn:E.
      * destruct Hc as (value & Henc & ->).
        exists ["proxy-authorization"; value]. eauto 10.
      * exists []. rewrite app_nil_r. auto.
    + destruct Hc as (_ & _ & ->). exists []. rewrite app_nil_r. auto.
  - intros st clientResponse. simpl. unfold step.
    destruct (client st); [|by left].
    unfold onResponse, ServerResponse.writeHead.
    destruct (IncomingMessage.statusCode clientResponse =? 407);
      [by left|].
    destruct (ServerResponse.headersSent (response st)); [by left|].
    match goal with
    | |- context [if ?b then inl _ else _] => destruct b
    end; [by left|].
    right. eexists. reflexivity.
Qed.
End Properties.

(** ** With the helpers as the specification describes them *)

(** Induction on a raw header list, two entries at a time. *)
Lemma pairs_ind {A} (P : list A → Prop) :
  P [] → (∀ x, P [x]) → (∀ x y l, P l → P (x :: y :: l)) → ∀ l, P l.
Proof.
  intros Hnil Hone Hstep l.
  assert (P l ∧ ∀ x, P (x :: l)) as [? _]; [|done].
  induction l as [|y l [IH1 IH2]]; [by split|].
  split; [apply IH2|]. intros x. by apply Hstep.
Qed.

(** The sanitizer lets no [proxy-authorization] header through. *)
Lemma sanitized_no_proxy_authorization raw :
  headerValues "proxy-authorization" (Spec.validHeadersOnly raw) = [].
Proof.
  induction raw as [|x|name value rest IH] using pairs_ind; [done..|].
  simpl. destruct (Spec.keep name value) eqn:Hkeep; [|done].
  unfold Spec.keep in Hkeep.
  apply andb_prop in Hkeep as [_ Hhop]. apply negb_true_iff in Hhop.
  unfold Spec.isHopByHop, Spec.hopByHop in Hhop. simpl in Hhop.
  repeat (apply orb_false_elim in Hhop as [? Hhop]).
  simpl. by replace (toLowerCase name =? "proxy-authorization")%string
    with false.
Qed.

(** Reading a sanitized list followed by more entries. *)
Lemma headerValues_sanitized_app name raw more :
  headerValues name (Spec.validHeadersOnly raw ++ more)
  = headerValues name (Spec.validHeadersOnly raw) ++ headerValues name more.
Proof.
  induction raw as [|x|n v rest IH] using pairs_ind; [done..|].
  simpl. destruct (Spec.keep n v); [|done].
  simpl. rewrite IH. by destruct (toLowerCase n =? name)%string.
Qed.

(** C2.  With the sanitizer and the encoder as described: when [forward]
    makes the outbound request through an upstream proxy whose url has a
    non-empty username or a non-empty password, the outbound headers carry
    exactly one [proxy-authorization] header, and its value is [Basic ]
    followed by the base64 of [username:password]; without an upstream
    proxy, or with both of them empty, the outbound headers are the
    sanitized headers with nothing added, and carry no such header. *)
Theorem proxy_authorization_iff_credentials representable request res
    handlerOpts c :
  client (forward (H := specUtils representable) request res handlerOpts)
  = Some c →
  let sent := Options.headers (ClientRequest.options c) in
  (∀ p, HandlerOpts.upstreamProxyUrlParsed handlerOpts = Some p →
     truthy (URL.username p) || truthy (URL.password p) = true →
     headerValues "proxy-authorization" sent
     = [String.append "Basic "
          (Spec.base64
             (String.append (URL.username p)
                (String.append ":" (URL.password p))))])
  ∧ (HandlerOpts.upstreamProxyUrlParsed handlerOpts = None
     ∨ (∃ p, HandlerOpts.upstreamProxyUrlParsed handlerOpts = Some p
             ∧ URL.username p = "" ∧ URL.password p = "") →
     headerValues "proxy-authorization" sent = []
     ∧ ∃ headers,
         hookedHeaders request handlerOpts = inr headers
         ∧ sent = Spec.validHeadersOnly headers).
Proof.
  intros Hc sent. subst sent.
  apply forward_client in Hc as (headers & Hhook & _ & _ & Hc). simpl in Hc.
  split.
  - intros p Hp Hcred. rewrite Hp, Hcred in Hc.
    destruct Hc as (_ & _ & value & Henc & ->).
    rewrite headerValues_sanitized_app, sanitized_no_proxy_authorization.
    unfold Spec.getBasicAuthorizationHeader in Henc.
    destruct (representable (Spec.credentials p)); [|done].
    by injection Henc as <-.
  - intros [Hnone | (p & Hp & Huser & Hpass)].
    + rewrite Hnone in Hc. destruct Hc as (_ & _ & ->).
      split; [apply sanitized_no_proxy_authorization | eauto].
    + rewrite Hp, Huser, Hpass in Hc. destruct Hc as (_ & _ & ->).
      split; [apply sanitized_no_proxy_authorization | eauto].
Qed.

(** ** The end-to-end scenarios of the specification *)

Example direct_scenario :
  client directRelay
  = Some {| ClientRequest.fn := HttpRequest;
            ClientRequest.origin := "http://example.test/page";
            ClientRequest.options :=
              {| Options.method := "GET";
                 Options.headers := ["Host"; "example.test"; "Accept"; "*/*"];
                 Options.insecureHTTPParser := true;
                 Options.path := None;
                 Options.localAddress := None;
                 Options.family := None;
                 Options.lookup := None |};
            ClientRequest.piped := [] |}
  ∧ ServerResponse.wire
      (response (specRun directRelay [Socket;
                                      Response (upstreamResponse 200 "OK");
                                      Data "<html>"; PipelineEnd None]))
    = [Head 200 "OK" ["Content-Type"; "text/html"]; Body "<html>"]
  ∧ promise (specRun directRelay [Socket; Response (upstreamResponse 200 "OK");
                              Data "<html>"; PipelineEnd None])
    = Fulfilled.
Proof. repeat split; reflexivity. Qed.

Example proxied_scenario :
  client proxiedRelay
  = Some {| ClientRequest.fn := HttpRequest;
            ClientRequest.origin := "http://upstream.test:443";
            ClientRequest.options :=
              {| Options.method := "GET";
                 Options.headers :=
                   ["Host"; "example.test"; "Accept"; "*/*";
                    "proxy-authorization"; "Basic dXNlcjpwYXNz"];
                 Options.insecureHTTPParser := true;
                 Options.path := Some "http://example.test/page";
                 Options.localAddress := None;
                 Options.family := None;
                 Options.lookup := None |};
            ClientRequest.piped := [] |}.
Proof. reflexivity. Qed.

(** ** The properties on the examples *)

Lemma outbound_path_absolute_iff_proxy_witness :
  (∃ c, client proxiedRelay = Some c
        ∧ ClientRequest.origin c = "http://upstream.test:443"
        ∧ requestTarget c = Verbatim "http://example.test/page")
  ∧ (∃ c, client directRelay = Some c
          ∧ ClientRequest.origin c = "http://example.test/page"
          ∧ requestTarget c = PathOf "http://example.test/page").
Proof.
  split; eexists; (split; [reflexivity|]).
  - destruct (outbound_path_absolute_iff_proxy
                (H := specUtils Spec.printable) exampleRequest
                ServerResponse.fresh (via exampleUpstream) _ eq_refl)
      as [Hproxy _].
    destruct (Hproxy exampleUpstream eq_refl) as (Horigin & _ & Htarget).
    split; [exact Horigin | exact Htarget].
  - destruct (outbound_path_absolute_iff_proxy
                (H := specUtils Spec.printable) exampleRequest
                ServerResponse.fresh direct _ eq_refl)
      as (_ & Hdirect & _).
    destruct (Hdirect eq_refl) as (Horigin & _ & Htarget).
    split; [exact Horigin | exact Htarget].
Defined.

Lemma proxy_authorization_iff_credentials_witness :
  (∃ c, client proxiedRelay = Some c
        ∧ headerValues "proxy-authorization"
            (Options.headers (ClientRequest.options c))
          = ["Basic dXNlcjpwYXNz"])
  ∧ (∃ c, client directRelay = Some c
          ∧ headerValues "proxy-authorization"
              (Options.headers (ClientRequest.options c))
            = []).
Proof.
  split; eexists; (split; [reflexivity|]).
  - destruct (proxy_authorization_iff_credentials Spec.printable
                exampleRequest ServerResponse.fresh (via exampleUpstream)
                _ eq_refl) as [Hcred _].
    exact (Hcred exampleUpstream eq_refl eq_refl).
  - destruct (proxy_authorization_iff_credentials Spec.printable
                exampleRequest ServerResponse.fresh direct _ eq_refl)
      as [_ Hnone].
    exact (proj1 (Hnone (or_introl eq_refl))).
Defined.

Lemma status_code_relayed_or_replaced_witness :
  ServerResponse.wire
    (response (specStep directRelay (Response (upstreamResponse 200 "OK"))))
  = [Head 200 "OK" ["Content-Type"; "text/html"]]
  ∧ ServerResponse.wire
      (response (specStep directRelay (Response (upstreamResponse 1000 "Odd"))))
    = [Head 502 "Odd" ["Content-Type"; "text/html"]]
  ∧ ServerResponse.wire
      (response (specStep directRelay (Response (upstreamResponse 0 ""))))
    = [Head 502 "" ["Content-Type"; "text/html"]].
Proof.
  split; [|split].
  - destruct (status_code_relayed_or_replaced
                (H := specUtils Spec.printable) directRelay _
                (upstreamResponse 200 "OK") eq_refl eq_refl) as [Hin _].
    refine (Hin _ _); simpl; lia.
  - destruct (status_code_relayed_or_replaced
                (H := specUtils Spec.printable) directRelay _
                (upstreamResponse 1000 "Odd") eq_refl eq_refl) as [_ Hout].
    refine (proj1 (Hout _)); simpl; lia.
  - destruct (status_code_relayed_or_replaced
                (H := specUtils Spec.printable) directRelay _
                (upstreamResponse 0 "") eq_refl eq_refl) as [_ Hout].
    refine (proj1 (Hout _)); simpl; lia.
Defined.

Lemma proxy_auth_required_rejected_witness :
  let st :=
    specStep proxiedRelay
      (Response (upstreamResponse 407 "Proxy Authentication Required")) in
  response st = ServerResponse.fresh
  ∧ promise st = Rejected ERR_407
  ∧ response (specRun st [Data "denied"]) = ServerResponse.fresh.
Proof.
  destruct (proxy_auth_required_rejected
              (H := specUtils Spec.printable) proxiedRelay _
              (upstreamResponse 407 "Proxy Authentication Required")
              eq_refl eq_refl) as (Hres & _ & _ & Hrej & Hbody).
  split; [exact Hres | split; [exact (Hrej eq_refl)|]].
  exact (Hbody eq_refl ["denied"]).
Defined.

Lemma connection_error_status_witness :
  ServerResponse.wire (response (specStep directRelay (ClientError ECONNREFUSED)))
  = [Head 502 "Bad Gateway" ["content-type"; "text/plain; charset=utf-8"];
     Body "Bad Gateway"]
  ∧ promise (specStep directRelay (ClientError ECONNREFUSED)) = Fulfilled.
Proof.
  destruct (connection_error_status
              (H := specUtils Spec.printable) directRelay _ ECONNREFUSED
              eq_refl eq_refl) as [(_ & Hrefused & _) (phrase & Hp & _ & Hw & Hr)].
  rewrite (Hrefused eq_refl) in Hp, Hw.
  change (Some "Bad Gateway" = Some phrase) in Hp. injection Hp as <-.
  split; [exact Hw | exact Hr].
Defined.

Lemma error_after_headers_sent_witness :
  let st := specStep directRelay (Response (upstreamResponse 200 "OK")) in
  ServerResponse.headersSent (response st) = true
  ∧ specStep st (ClientError ECONNREFUSED) = st
  ∧ promise (specRun st [ClientError ECONNREFUSED; PipelineEnd (Some ECONNREFUSED)])
    = Fulfilled.
Proof.
  intros st.
  destruct (error_after_headers_sent
              (H := specUtils Spec.printable) st ECONNREFUSED) as [Hsent _].
  destruct (Hsent eq_refl) as [Hsame Hlater].
  split; [reflexivity | split; [exact Hsame|]].
  destruct (Hlater _ (Some ECONNREFUSED) eq_refl eq_refl) as (_ & Hfulfilled & _).
  exact (Hfulfilled eq_refl).
Defined.

Lemma credential_encoding_failure_rejects_witness :
  let st :=
    forward (H := specUtils Spec.printable) exampleRequest
      ServerResponse.fresh (via unprintableUpstream) in
  promise st = Rejected Spec.EncodingError
  ∧ client st = None
  ∧ response st = ServerResponse.fresh
  ∧ specRun st [Socket; Response (upstreamResponse 200 "OK")] = st.
Proof.
  destruct (credential_encoding_failure_rejects
              (H := specUtils Spec.printable) exampleRequest
              ServerResponse.fresh (via unprintableUpstream)
              unprintableUpstream _ Spec.EncodingError
              eq_refl eq_refl eq_refl eq_refl) as (Hrej & Hnone & Hres & Hrun).
  split; [exact Hrej | split; [exact Hnone | split; [exact Hres|]]].
  exact (Hrun [Socket; Response (upstreamResponse 200 "OK")]).
Defined.

Lemma peer_headers_sanitized_witness :
  ∃ c, client proxiedRelay = Some c
       ∧ Options.headers (ClientRequest.options c)
         = Spec.validHeadersOnly (IncomingMessage.rawHeaders exampleRequest)
           ++ ["proxy-authorization"; "Basic dXNlcjpwYXNz"].
Proof.
  eexists. split; [reflexivity|].
  destruct (peer_headers_sanitized
              (H := specUtils Spec.printable) exampleRequest
              ServerResponse.fresh (via exampleUpstream) _ eq_refl)
    as [(headers & own & Hhook & Hsent & Hown) _].
  injection Hhook as <-.
  destruct Hown as [-> | (p & value & Hp & _ & Henc & ->)].
  - discriminate Hsent.
  - injection Hp as <-. injection Henc as <-. exact Hsent.
Defined.

Lemma hook_failure_leaves_relay_pending_witness :
  let st :=
    forward (H := specUtils Spec.printable) exampleRequest
      ServerResponse.fresh withFailingHook in
  promise st = Pending
  ∧ client st = None
  ∧ promise (specRun st [Socket; Response (upstreamResponse 200 "OK");
                         PipelineEnd None; ClientError ECONNREFUSED])
    = Pending.
Proof.
  destruct (hook_failure_leaves_relay_pending
              (H := specUtils Spec.printable) exampleRequest
              ServerResponse.fresh withFailingHook failingHook _
              eq_refl eq_refl) as (Hpending & Hnone & Hever).
  split; [exact Hpending | split; [exact Hnone|]].
  exact (Hever [Socket; Response (upstreamResponse 200 "OK");
                PipelineEnd None; ClientError ECONNREFUSED]).
Defined.

Lemma replaced_status_keeps_status_message_witness :
  ∃ headers,
    ServerResponse.wire
      (response (specStep directRelay (Response (upstreamResponse 1000 "Odd"))))
    = [Head 502 "Odd" headers].
Proof.
  refine (replaced_status_keeps_status_message
            (H := specUtils Spec.printable) directRelay _
            (upstreamResponse 1000 "Odd") eq_refl eq_refl _).
  right. simpl. lia.
Defined.

(** C8 as stated fails on the example: the header sequence sent to the
    upstream ends with the appended [proxy-authorization] pair, and no input
    makes the sanitizer return such a sequence; sanitizing it once more
    takes the pair away. *)
Lemma appended_header_is_not_sanitized :
  ∃ c, client proxiedRelay = Some c
       ∧ Options.headers (ClientRequest.options c)
         = ["Host"; "example.test"; "Accept"; "*/*";
            "proxy-authorization"; "Basic dXNlcjpwYXNz"]
       ∧ (∀ raw,
            Spec.validHeadersOnly raw
            ≠ Options.headers (ClientRequest.options c))
       ∧ Spec.validHeadersOnly (Options.headers (ClientRequest.options c))
         = ["Host"; "example.test"; "Accept"; "*/*"].
Proof.
  eexists. split; [reflexivity|]. split; [reflexivity|].
  split; [|reflexivity].
  intros raw Hraw.
  pose proof (sanitized_no_proxy_authorization raw) as Hnone.
  rewrite Hraw in Hnone. discriminate Hnone.
Qed.

(** * Further properties of the relay *)

Section Further.
Context `{Utils}.

(** What every step keeps, every trace keeps. *)
Lemma run_invariant (P : Relay → Prop) :
  (∀ st ev, P st → P (step st ev)) →
  ∀ events st, P st → P (run st events).
Proof.
  intros Hstep events. unfold run.
  induction events as [|ev events IH]; intros st HP; simpl; [done|].
  apply IH. by apply Hstep.
Qed.

Lemma run_app st events more :
  run st (events ++ more) = run (run st events) more.
Proof. unfold run. apply foldl_app. Qed.

(** Once the hook has returned, [forward] either is rejected with the
    error of the encoder or makes the outbound request. *)
Lemma forward_after_hook request res handlerOpts headers :
  hookedHeaders request handlerOpts = inr headers →
  let st := forward request res handlerOpts in
  (∃ p e, HandlerOpts.upstreamProxyUrlParsed handlerOpts = Some p
          ∧ getBasicAuthorizationHeader p = inl e
          ∧ promise st = Rejected e ∧ client st = None)
  ∨ (∃ c, client st = Some c ∧ promise st = Pending).
Proof.
  unfold forward, hookedHeaders. intros ->.
  destruct (HandlerOpts.upstreamProxyUrlParsed handlerOpts) as [p|]; simpl;
    [|eauto].
  destruct (truthy (URL.username p) || truthy (URL.password p)); [|eauto].
  destruct (getBasicAuthorizationHeader p) as [e|value] eqn:Henc; simpl;
    [left|]; eauto 10.
Qed.

(** X1.  [forward] ends in one of three ways and in no other: the hook threw
    (promise pending, no outbound request), the encoder was consulted and
    threw (promise rejected with its error, no outbound request), or the
    outbound request was made (promise pending).  It never resolves the
    promise itself and never writes to the client. *)
Theorem forward_outcomes request res handlerOpts :
  let st := forward request res handlerOpts in
  response st = res
  ∧ piping st = false
  ∧ ((∃ e, hookedHeaders request handlerOpts = inl e
           ∧ promise st = Pending ∧ client st = None)
     ∨ (∃ headers p e,
          hookedHeaders request handlerOpts = inr headers
          ∧ HandlerOpts.upstreamProxyUrlParsed handlerOpts = Some p
          ∧ truthy (URL.username p) || truthy (URL.password p) = true
          ∧ getBasicAuthorizationHeader p = inl e
          ∧ promise st = Rejected e ∧ client st = None)
     ∨ (∃ headers c,
          hookedHeaders request handlerOpts = inr headers
          ∧ client st = Some c ∧ promise st = Pending)).
Proof.
  unfold forward, hookedHeaders.
  destruct (match HandlerOpts.customHttpHeader handlerOpts with
            | Some hook => hook (IncomingMessage.rawHeaders request)
            | None => inr (IncomingMessage.rawHeaders request)
            end) as [e|headers]; simpl.
  { repeat split; try done. left. eauto. }
  destruct (HandlerOpts.upstreamProxyUrlParsed handlerOpts) as [p|]; simpl.
  - destruct (truthy (URL.username p) || truthy (URL.password p)) eqn:Hcred.
    + destruct (getBasicAuthorizationHeader p) as [e|value] eqn:Henc; simpl.
      * repeat split; try done. right; left. eauto 10.
      * repeat split; try done. right; right. eauto.
    + repeat split; try done. right; right. eauto.
  - repeat split; try done. right; right. eauto.
Qed.

(** X2.  The outbound request is made with [https.request] exactly when the url
    it is made for starts with [https:].  That url is the proxy's origin
    when a proxy is configured, so the scheme of [request.url] then plays
    no part.  The method is the request's; the tolerant parser is on; bind
    address, family and lookup are those of the handler options, also
    after the path and the authorization header were added. *)
Theorem outbound_connection_options request res handlerOpts c :
  client (forward request res handlerOpts) = Some c →
  ClientRequest.origin c = outboundOrigin request handlerOpts
  ∧ (ClientRequest.fn c = HttpsRequest
     ↔ String.prefix "https:" (outboundOrigin request handlerOpts) = true)
  ∧ Options.method (ClientRequest.options c) = IncomingMessage.method request
  ∧ Options.insecureHTTPParser (ClientRequest.options c) = true
  ∧ Options.localAddress (ClientRequest.options c)
    = HandlerOpts.localAddress handlerOpts
  ∧ Options.family (ClientRequest.options c)
    = HandlerOpts.ipFamily handlerOpts
  ∧ Options.lookup (ClientRequest.options c)
    = HandlerOpts.dnsLookup handlerOpts.
Proof.
  unfold forward, outboundOrigin. intros Hc.
  destruct (match HandlerOpts.customHttpHeader handlerOpts with
            | Some hook => hook (IncomingMessage.rawHeaders request)
            | None => inr (IncomingMessage.rawHeaders request)
            end) as [e|headers]; [discriminate|].
  set (origin := match HandlerOpts.upstreamProxyUrlParsed handlerOpts with
                 | Some p => URL.origin p
                 | None => IncomingMessage.url request
                 end) in *.
  assert (∀ fn : RequestFn,
            fn = (if String.prefix "https:" origin then HttpsRequest
                  else HttpRequest) →
            fn = HttpsRequest ↔ String.prefix "https:" origin = true)
    as Hfn.
  { intros fn ->. by destruct (String.prefix "https:" origin). }
  destruct (HandlerOpts.upstreamProxyUrlParsed handlerOpts) as [p|].
  - destruct (truthy (URL.username p) || truthy (URL.password p)).
    + destruct (getBasicAuthorizationHeader p) as [e|value];
        [discriminate|].
      injection Hc as <-. simpl. repeat split; try done; by apply Hfn.
    + injection Hc as <-. simpl. repeat split; try done; by apply Hfn.
  - injection Hc as <-. simpl. repeat split; try done; by apply Hfn.
Qed.
End Further.

(** X3.  Without credentials the encoder is not consulted: with no upstream
    proxy, or with an upstream url whose username and password are both
    empty, [forward] gives the same relay whatever the encoder is. *)
Theorem encoder_not_consulted_without_credentials (U1 U2 : Utils)
    request res handlerOpts :
  (∀ raw, @validHeadersOnly U1 raw = @validHeadersOnly U2 raw) →
  (HandlerOpts.upstreamProxyUrlParsed handlerOpts = None
   ∨ ∃ p, HandlerOpts.upstreamProxyUrlParsed handlerOpts = Some p
          ∧ URL.username p = "" ∧ URL.password p = "") →
  forward (H := U1) request res handlerOpts
  = forward (H := U2) request res handlerOpts.
Proof.
  intros Hsan Hplain. unfold forward.
  destruct (match HandlerOpts.customHttpHeader handlerOpts with
            | Some hook => hook (IncomingMessage.rawHeaders request)
            | None => inr (IncomingMessage.rawHeaders request)
            end) as [e|headers]; [done|].
  rewrite Hsan.
  destruct Hplain as [-> | (p & -> & -> & ->)]; done.
Qed.

Section Events.
Context `{Utils}.

Lemma clamped_valid (status : Z) :
  100 ≤ clamped status ≤ 999 ∧ (status ≠ 407 → clamped status ≠ 407).
Proof.
  unfold clamped. rewrite Z.gtb_ltb.
  destruct (Z.ltb_spec status 100), (Z.ltb_spec 999 status); simpl; lia.
Qed.

(** X4.  The response callback never hands [writeHead] a status it refuses: what
    it writes is a head whose status lies in [100,999] and is not 407, and
    then the pipeline is awaited and the promise left alone.  It leaves the
    response untouched only on a 407 or when the head is already out. *)
Theorem response_callback_writes_valid_status st c clientResponse :
  client st = Some c →
  let status := IncomingMessage.statusCode clientResponse in
  let st' := step st (Response clientResponse) in
  (response st' = response st
   ∧ (status = 407 ∨ ServerResponse.headersSent (response st) = true))
  ∨ (status ≠ 407
     ∧ ServerResponse.headersSent (response st) = false
     ∧ 100 ≤ clamped status ≤ 999
     ∧ clamped status ≠ 407
     ∧ ServerResponse.wire (response st')
       = ServerResponse.wire (response st)
         ++ [Head (clamped status)
               (IncomingMessage.statusMessage clientResponse)
               (ServerResponse.ownHeaders (response st)
                ++ validHeadersOnly
                     (IncomingMessage.rawHeaders clientResponse))]
     ∧ piping st' = true
     ∧ promise st' = promise st).
Proof.
  intros Hc status st'. subst st'. unfold step. rewrite Hc.
  destruct (decide (status = 407)) as [H407|Hne].
  { left. unfold onResponse. fold status. rewrite H407. simpl. auto. }
  destruct (ServerResponse.headersSent (response st)) eqn:Hsent.
  { left. unfold onResponse, ServerResponse.writeHead. fold status.
    rewrite Hsent. replace (status =? 407) with false
      by (symmetry; by apply Z.eqb_neq). simpl. auto. }
  right. rewrite onResponse_open by done.
  destruct (clamped_valid status) as [Hrange Hnot].
  repeat split; try done; try apply Hrange. by apply Hnot.
Qed.

(** The [statuses] lookup as a decision on the code. *)
Lemma errorStatus_decided upstream error :
  errorStatus upstream error
  = if decide (code error = Some "ENOTFOUND")
    then match upstream with Some _ => 502 | None => 404 end
    else if decide (code error = Some "ETIMEDOUT") then 504 else 502.
Proof.
  destruct (errorStatus_table upstream error)
    as (Hnf & Hrefused & Hreset & Hpipe & Htimeout & Hother).
  destruct (decide (code error = Some "ENOTFOUND")); [auto|].
  destruct (decide (code error = Some "ETIMEDOUT")); [auto|].
  destruct (decide (code error = Some "ECONNREFUSED")); [auto|].
  destruct (decide (code error = Some "ECONNRESET")); [auto|].
  destruct (decide (code error = Some "EPIPE")); [auto|].
  apply Hother. rewrite !elem_of_cons, elem_of_nil. tauto.
Qed.

(** X5.  The [error] listener answers 404 only for an unresolvable target when
    no upstream proxy is configured, 504 only for a timeout, and 502 in
    every other case. *)
Theorem error_status_characterised upstream error :
  (errorStatus upstream error = 404
   ↔ code error = Some "ENOTFOUND" ∧ upstream = None)
  ∧ (errorStatus upstream error = 504 ↔ code error = Some "ETIMEDOUT")
  ∧ (errorStatus upstream error = 502
     ↔ ¬ (code error = Some "ENOTFOUND" ∧ upstream = None)
       ∧ code error ≠ Some "ETIMEDOUT").
Proof.
  rewrite errorStatus_decided.
  destruct (decide (code error = Some "ENOTFOUND")) as [Hnf|Hnf].
  - rewrite Hnf. destruct upstream as [p|]; repeat split; try done;
      try (by intros [_ ?]); try (by intros [? _]).
    intros [Hnot _]. by destruct Hnot.
  - destruct (decide (code error = Some "ETIMEDOUT")) as [Hto|Hto];
      repeat split; try done; try (by intros [? _]);
      try (by intros [_ ?]).
Qed.
End Events.

Section Traces.
Context `{Utils}.

Lemma bodies_only (rest : list Frame) :
  forallb isBody rest = true ↔ ∃ chunks, rest = Body <$> chunks.
Proof.
  split.
  - induction rest as [|[s r h|chunk] rest IH]; simpl; intros Hall.
    + by exists [].
    + done.
    + destruct (IH Hall) as [chunks ->]. by exists (chunk :: chunks).
  - intros [chunks ->]. by induction chunks.
Qed.

Lemma framed_cases res :
  framed res = true ↔
  (ServerResponse.phase res = Open ∧ ServerResponse.wire res = [])
  ∨ (ServerResponse.phase res ≠ Open
     ∧ ∃ s r h rest,
         ServerResponse.wire res = Head s r h :: rest
         ∧ forallb isBody rest = true).
Proof.
  unfold framed.
  destruct (ServerResponse.phase res), (ServerResponse.wire res)
    as [|[s r h|chunk] rest]; split; try done;
    try (by left); try (intros [[? ?] | [? (? & ? & ? & ? & ? & ?)]]; done);
    try (intros Hall; right; split; [done | eauto 10]);
    try (intros [[? ?] | [? (? & ? & ? & ? & [= <- <- <- <-] & ?)]]; done).
Qed.

(** The four writers keep a response framed. *)
Lemma framed_write chunk res :
  framed res = true → framed (ServerResponse.write chunk res) = true.
Proof.
  rewrite !framed_cases.
  intros [[Hopen Hwire] | [Hout (s & r & h & rest & Hwire & Hall)]];
    unfold ServerResponse.write, ServerResponse.implicitHead.
  - rewrite Hopen, Hwire. simpl. right. split; [done | eauto 10].
  - destruct (ServerResponse.phase res) eqn:Hphase; [done| |].
    + simpl. right. split; [done|]. rewrite Hwire. simpl.
      do 4 eexists. split; [done|]. rewrite forallb_app, Hall. done.
    + right. rewrite Hphase. split; [done | eauto 10].
Qed.

Lemma framed_end data res :
  framed res = true → framed (ServerResponse.end_ data res) = true.
Proof.
  rewrite !framed_cases.
  intros [[Hopen Hwire] | [Hout (s & r & h & rest & Hwire & Hall)]];
    unfold ServerResponse.end_, ServerResponse.implicitHead.
  - rewrite Hopen, Hwire. simpl. right. split; [done|].
    do 4 eexists. split; [done|]. by destruct data.
  - destruct (ServerResponse.phase res) eqn:Hphase; [done| |].
    + simpl. right. split; [done|]. rewrite Hwire. simpl.
      do 4 eexists. split; [done|]. rewrite forallb_app, Hall.
      by destruct data.
    + right. rewrite Hphase. split; [done | eauto 10].
Qed.

Lemma framed_step st ev :
  framed (response st) = true → framed (response (step st ev)) = true.
Proof.
  intros Hframed. unfold step. destruct (client st); [|done].
  destruct ev as [|chunk|clientResponse|chunk|failure|error]; simpl;
    try done.
  - unfold onResponse.
    destruct (IncomingMessage.statusCode clientResponse =? 407); [done|].
    unfold ServerResponse.writeHead, ServerResponse.headersSent.
    destruct (ServerResponse.phase (response st)) eqn:Hphase; try done.
    match goal with
    | |- context [if ?b then inl _ else _] => destruct b
    end; [done|]. simpl.
    apply framed_cases in Hframed
      as [[_ Hwire] | [Hout _]]; [|done].
    rewrite Hwire. done.
  - destruct (piping st); [|done]. simpl. by apply framed_write.
  - destruct (piping st); [|done].
    destruct failure; simpl; [done|]. by apply framed_end.
  - unfold onError.
    destruct (ServerResponse.headersSent (response st)) eqn:Hsent; [done|].
    unfold ServerResponse.setHeader, ServerResponse.setStatusCode,
      ServerResponse.headersSent in *. simpl.
    destruct (ServerResponse.phase (response st)) eqn:Hphase; try done.
    simpl. apply framed_end.
    apply framed_cases in Hframed as [[_ Hwire] | [Hout _]]; [|done].
    unfold framed. simpl. by rewrite Hwire.
Qed.

(** X6.  Whatever happens after [forward], the client is sent at most one head,
    and nothing before it: the wire is empty as long as the head is not
    out, and afterwards it is one head followed by body chunks only. *)
Theorem one_head_then_body request res handlerOpts events :
  framed res = true →
  let after := response (run (forward request res handlerOpts) events) in
  (ServerResponse.headersSent after = false
   ∧ ServerResponse.wire after = [])
  ∨ (ServerResponse.headersSent after = true
     ∧ ∃ status reason headers chunks,
         ServerResponse.wire after
         = Head status reason headers :: (Body <$> chunks)).
Proof.
  intros Hframed after.
  assert (framed after = true) as Hafter.
  { subst after.
    apply (run_invariant (λ st, framed (response st) = true)).
    - intros st ev. apply framed_step.
    - by destruct (forward_frame request res handlerOpts) as [-> _]. }
  apply framed_cases in Hafter
    as [[Hopen Hwire] | [Hout (s & r & h & rest & Hwire & Hall)]];
    unfold ServerResponse.headersSent.
  - left. by rewrite Hopen.
  - right. apply bodies_only in Hall as [chunks ->].
    split; [by destruct (ServerResponse.phase after) | eauto].
Qed.

Lemma piping_step st ev :
  (piping st = true → ServerResponse.headersSent (response st) = true) →
  piping (step st ev) = true →
  ServerResponse.headersSent (response (step st ev)) = true.
Proof.
  intros Hinv. unfold step. destruct (client st); [|done].
  destruct ev as [|chunk|clientResponse|chunk|failure|error]; simpl;
    try done.
  - unfold onResponse.
    destruct (IncomingMessage.statusCode clientResponse =? 407); [done|].
    unfold ServerResponse.writeHead.
    destruct (ServerResponse.headersSent (response st)) eqn:Hsent; [done|].
    match goal with
    | |- context [if ?b then inl _ else _] => destruct b
    end; simpl; auto.
    intros Hpiping. by specialize (Hinv Hpiping).
  - destruct (piping st) eqn:Hpiping; simpl; [|by rewrite Hpiping].
    intros _. specialize (Hinv eq_refl).
    unfold ServerResponse.headersSent, ServerResponse.write in *.
    destruct (ServerResponse.phase (response st)) eqn:Hphase; simpl;
      by rewrite ?Hphase.
  - destruct (piping st) eqn:Hpiping; simpl; [|by rewrite Hpiping].
    by destruct failure.
  - unfold onError.
    destruct (ServerResponse.headersSent (response st)) eqn:Hsent; [done|].
    unfold ServerResponse.setHeader, ServerResponse.setStatusCode,
      ServerResponse.headersSent in *. simpl.
    by destruct (ServerResponse.phase (response st)) eqn:Hphase.
Qed.

(** X7.  A pipeline is awaited only once the head is out.  Hence an outbound
    error while the body is being relayed never puts an error response in
    the middle of it: the listener leaves the relay as it is. *)
Theorem no_error_response_while_piping request res handlerOpts events :
  let st := run (forward request res handlerOpts) events in
  piping st = true →
  ServerResponse.headersSent (response st) = true
  ∧ ∀ error, step st (ClientError error) = st.
Proof.
  intros st Hpiping.
  assert (ServerResponse.headersSent (response st) = true) as Hsent.
  { revert Hpiping. subst st.
    apply (run_invariant
             (λ st, piping st = true →
                    ServerResponse.headersSent (response st) = true)).
    - intros st ev. apply piping_step.
    - by destruct (forward_frame request res handlerOpts)
        as (_ & -> & _). }
  split; [done|]. intros error. unfold step, onError.
  rewrite Hsent. by destruct (client st).
Qed.

(** No event writes to an ended response. *)
Lemma ended_step st ev :
  ServerResponse.phase (response st) = Ended →
  response (step st ev) = response st.
Proof.
  intros Hphase. unfold step. destruct (client st); [|done].
  destruct ev as [|chunk|clientResponse|chunk|failure|error]; simpl;
    try done.
  - unfold onResponse, ServerResponse.writeHead,
      ServerResponse.headersSent.
    rewrite Hphase.
    by destruct (IncomingMessage.statusCode clientResponse =? 407).
  - destruct (piping st); [|done]. simpl.
    unfold ServerResponse.write. by rewrite Hphase.
  - destruct (piping st); [|done]. destruct failure; simpl; [done|].
    unfold ServerResponse.end_. by rewrite Hphase.
  - unfold onError, ServerResponse.headersSent. by rewrite Hphase.
Qed.

(** X8.  Once the response is ended nothing is written to it any more,
    whatever arrives: a late upstream response, body chunks, or further
    errors. *)
Theorem ended_response_is_final st events :
  ServerResponse.phase (response st) = Ended →
  response (run st events) = response st.
Proof.
  intros Hended.
  enough (ServerResponse.phase (response (run st events)) = Ended
          ∧ response (run st events) = response st) as [_ ?]; [done|].
  apply (run_invariant
           (λ st', ServerResponse.phase (response st') = Ended
                   ∧ response st' = response st)); [|done].
  clear events. intros st' ev [Hphase Hsame].
  rewrite ended_step by done. by rewrite Hsame.
Qed.
End Traces.

Section Outcomes.
Context `{Utils}.

(** How one event can change the promise. *)
Lemma promise_step st ev :
  promise (step st ev) = promise st
  ∨ promise (step st ev) = resolve (promise st)
  ∨ promise (step st ev) = reject ERR_407 (promise st).
Proof.
  unfold step. destruct (client st); [|by left].
  destruct ev as [|chunk|clientResponse|chunk|failure|error]; simpl;
    try (by left).
  - unfold onResponse.
    destruct (IncomingMessage.statusCode clientResponse =? 407); simpl;
      [by right; right|].
    destruct (ServerResponse.writeHead _ _ _ _); simpl;
      [by right; left | by left].
  - by destruct (piping st); left.
  - destruct (piping st); [|by left].
    destruct failure; simpl; by right; left.
  - unfold onError.
    destruct (ServerResponse.headersSent (response st)); [by left|].
    destruct (ServerResponse.setHeader _ _ _); simpl;
      [by left | by right; left].
Qed.

(** X9.  A relay is rejected for two reasons only: the encoder threw, and then
    the reason is the encoder's error, or the upstream answered 407.  No
    connection error and no failure of the pipeline ever rejects it. *)
Theorem rejected_only_for_credentials request res handlerOpts events e :
  promise (run (forward request res handlerOpts) events) = Rejected e →
  e = ERR_407
  ∨ ∃ p, HandlerOpts.upstreamProxyUrlParsed handlerOpts = Some p
         ∧ getBasicAuthorizationHeader p = inl e.
Proof.
  revert e.
  apply (run_invariant
           (λ st, ∀ e, promise st = Rejected e →
                       e = ERR_407
                       ∨ ∃ p, HandlerOpts.upstreamProxyUrlParsed handlerOpts
                              = Some p
                              ∧ getBasicAuthorizationHeader p = inl e)).
  - intros st ev Hinv e.
    destruct (promise_step st ev) as [-> | [-> | ->]];
      destruct (promise st) eqn:Hpromise; simpl; try done;
      try (intros [= <-]; by apply Hinv).
    intros [= <-]. by left.
  - intros e.
    destruct (hookedHeaders request handlerOpts) as [e'|hs] eqn:Hhook.
    + unfold forward. unfold hookedHeaders in Hhook. by rewrite Hhook.
    + destruct (forward_after_hook request res handlerOpts hs Hhook)
        as [(p & e' & Hp & Henc & -> & _) | (c & _ & ->)]; [|done].
      intros [= <-]. right. eauto.
Qed.


(** Body chunks moved by an awaited pipeline are appended in order. *)
Lemma run_data_piping chunks st c :
  client st = Some c →
  piping st = true →
  ServerResponse.phase (response st) = HeadOut →
  run st (Data <$> chunks)
  = withResponse
      {| ServerResponse.statusCode :=
           ServerResponse.statusCode (response st);
         ServerResponse.ownHeaders :=
           ServerResponse.ownHeaders (response st);
         ServerResponse.phase := HeadOut;
         ServerResponse.wire :=
           ServerResponse.wire (response st) ++ (Body <$> chunks) |} st.
Proof.
  revert st. induction chunks as [|chunk chunks IH]; intros st Hc Hp Hphase.
  - destruct st as [px pr [sc own ph w] cl pp cn]. simpl in *. subst.
    unfold withResponse. simpl. by rewrite app_nil_r.
  - unfold run in *. simpl. unfold step at 2. rewrite Hc, Hp.
    etrans;
      [apply (IH (withResponse
                    (ServerResponse.write chunk (response st)) st));
       try done; unfold ServerResponse.write; by rewrite Hphase|].
    unfold ServerResponse.write. rewrite Hphase.
    unfold withResponse, ServerResponse.implicitHead. rewrite Hphase.
    simpl. by rewrite <- app_assoc.
Qed.

(** X11.  A relayed response, start to end.  On an open response, an upstream
    response other than 407 followed by its body chunks and the end of the
    pipeline gives the client the head (clamped status, upstream reason
    phrase, sanitized headers) and then the chunks in their order.  The
    relay is resolved whether the pipeline finished or failed; the response
    is ended only when it finished. *)
Theorem relayed_response st c clientResponse chunks failure :
  client st = Some c →
  ServerResponse.headersSent (response st) = false →
  IncomingMessage.statusCode clientResponse ≠ 407 →
  let st' :=
    run st (Response clientResponse
            :: (Data <$> chunks) ++ [PipelineEnd failure]) in
  ServerResponse.wire (response st')
  = ServerResponse.wire (response st)
    ++ Head (clamped (IncomingMessage.statusCode clientResponse))
         (IncomingMessage.statusMessage clientResponse)
         (ServerResponse.ownHeaders (response st)
          ++ validHeadersOnly (IncomingMessage.rawHeaders clientResponse))
       :: (Body <$> chunks)
  ∧ ServerResponse.phase (response st')
    = match failure with None => Ended | Some _ => HeadOut end
  ∧ promise st' = resolve (promise st)
  ∧ piping st' = false.
Proof.
  intros Hc Hopen Hne st'. subst st'.
  change (run st (?ev :: ?rest)) with (run (step st ev) rest).
  assert (step st (Response clientResponse) = onResponse clientResponse st)
    as -> by (unfold step; by rewrite Hc).
  rewrite run_app, (onResponse_open clientResponse st Hopen Hne).
  fold (clamped (IncomingMessage.statusCode clientResponse)).
  rewrite (run_data_piping chunks _ c) by done. simpl.
  unfold run. simpl. unfold step. simpl. rewrite Hc.
  destruct failure; simpl; rewrite <- ?app_assoc; simpl;
    rewrite ?app_nil_r; done.
Qed.

(** X12.  An error answer is complete and final.  On an open response an
    outbound error sends the head and the reason phrase, ends the response
    and resolves a pending relay; whatever arrives afterwards, the client
    gets nothing more and the relay stays as settled. *)
Theorem error_answer_is_final st c error events :
  client st = Some c →
  ServerResponse.headersSent (response st) = false →
  let status := errorStatus (proxy st) error in
  let st' := run st (ClientError error :: events) in
  (∃ phrase,
     STATUS_CODES status = Some phrase
     ∧ ServerResponse.wire (response st')
       = ServerResponse.wire (response st)
         ++ [Head status phrase
               (ServerResponse.ownHeaders (response st)
                ++ ["content-type"; "text/plain; charset=utf-8"]);
             Body phrase])
  ∧ ServerResponse.phase (response st') = Ended
  ∧ promise st' = resolve (promise st).
Proof.
  intros Hc Hopen status st'. subst st'.
  change (run st (?ev :: ?rest)) with (run (step st ev) rest).
  assert (step st (ClientError error) = onError error st) as ->
    by (unfold step; by rewrite Hc).
  rewrite onError_open by done. fold status.
  set (answered := settle resolve (withResponse _ st)).
  assert (ServerResponse.phase (response answered) = Ended) as Hended
    by done.
  assert (promise answered ≠ Pending) as Hsettled
    by (subst answered; simpl; by destruct (promise st)).
  assert (response (run answered events) = response answered
          ∧ promise (run answered events) = promise answered) as [-> ->].
  { apply (run_invariant
             (λ st', response st' = response answered
                     ∧ promise st' = promise answered)); [|done].
    intros st' ev [Hr Hp]. split.
    - rewrite ended_step; [done | by rewrite Hr].
    - rewrite settled_is_final; [done | by rewrite Hp]. }
  subst answered. simpl. split; [|done].
  destruct (errorStatus_values (proxy st) error) as [E | [E | E]];
    fold status in E; rewrite E; simpl; eauto.
Qed.
End Outcomes.

Section Directions.
Context `{Utils}.

(** What an event does to the outbound request: a chunk of the request
    body is written to it, and nothing else touches it. *)
Lemma client_step st c ev :
  client st = Some c →
  client (step st ev)
  = Some match ev with
         | RequestData chunk => ClientRequest.write chunk c
         | _ => c
         end.
Proof.
  intros Hc. unfold step. rewrite Hc.
  destruct ev as [|chunk|clientResponse|chunk|failure|error]; simpl;
    try done.
  - unfold onResponse.
    destruct (IncomingMessage.statusCode clientResponse =? 407); [done|].
    by destruct (ServerResponse.writeHead _ _ _ _).
  - by destruct (piping st).
  - destruct (piping st); [|done]. by destruct failure.
  - unfold onError.
    destruct (ServerResponse.headersSent (response st)); [done|].
    by destruct (ServerResponse.setHeader _ _ _).
Qed.

(** X13.  The outbound request keeps the function, the url and the options it
    was made with: no event changes its method, path or headers.  The
    chunks of the request body are written to it in the order they come,
    also after the response has been answered. *)
Theorem request_body_piped_in_order events st c :
  client st = Some c →
  ∃ c',
    client (run st events) = Some c'
    ∧ ClientRequest.fn c' = ClientRequest.fn c
    ∧ ClientRequest.origin c' = ClientRequest.origin c
    ∧ ClientRequest.options c' = ClientRequest.options c
    ∧ ClientRequest.piped c'
      = ClientRequest.piped c ++ requestChunks events.
Proof.
  revert st c. unfold run.
  induction events as [|ev events IH]; intros st c Hc; simpl.
  - exists c. by rewrite app_nil_r.
  - destruct (IH _ _ (client_step st c ev Hc))
      as (c' & Hc' & Hfn & Horigin & Hoptions & Hpiped).
    exists c'. split; [done|].
    destruct ev; simpl in *; try done.
    rewrite Hpiped, <- app_assoc. done.
Qed.

Lemma sameClientSide_step st1 st2 ev :
  sameClientSide st1 st2 → sameClientSide (step st1 ev) (step st2 ev).
Proof.
  destruct st1 as [px1 pr1 r1 c1 pp1 cn1], st2 as [px2 pr2 r2 c2 pp2 cn2].
  unfold sameClientSide. simpl. intros (-> & -> & -> & -> & Hnone).
  destruct c1 as [c1|], c2 as [c2|];
    [ | by destruct Hnone as [_ Hn]; specialize (Hn eq_refl)
      | by destruct Hnone as [Hn _]; specialize (Hn eq_refl)
      | done ].
  unfold step. simpl.
  destruct ev as [|chunk|clientResponse|chunk|failure|error]; simpl;
    try done.
  - unfold onResponse. simpl.
    destruct (IncomingMessage.statusCode clientResponse =? 407); [done|].
    by destruct (ServerResponse.writeHead _ _ _ _).
  - by destruct pp2.
  - destruct pp2; [|done]. by destruct failure.
  - unfold onError. simpl.
    destruct (ServerResponse.headersSent r2); [done|].
    by destruct (ServerResponse.setHeader _ _ _).
Qed.

Lemma sameClientSide_skip st1 st2 ev :
  clientFacing ev = false →
  sameClientSide st1 st2 → sameClientSide (step st1 ev) st2.
Proof.
  intros Hev. unfold sameClientSide, step.
  intros (Hr & Hp & Hpp & Hpx & Hnone).
  destruct (client st1) eqn:Hc1; [|by rewrite Hc1].
  destruct ev; try done; simpl; repeat split; try done;
    rewrite ?Hc1; intros Hn; first [done | by apply Hnone in Hn].
Qed.

(** X14.  The two directions do not interfere.  What the client is sent and how
    the relay is settled depend on the events of the response direction
    only: the request-body chunks and the socket notification can be left
    out of a trace without any change to the response or the promise. *)
Theorem request_direction_is_invisible st events :
  response (run st events) = response (run st (List.filter clientFacing events))
  ∧ promise (run st events)
    = promise (run st (List.filter clientFacing events)).
Proof.
  enough (∀ st1 st2, sameClientSide st1 st2 →
            sameClientSide (run st1 events)
              (run st2 (List.filter clientFacing events)))
    as Hsame.
  { destruct (Hsame st st) as (? & ? & _); [|done].
    unfold sameClientSide. tauto. }
  unfold run. induction events as [|ev events IH]; intros st1 st2 Hsame;
    simpl; [done|].
  destruct (clientFacing ev) eqn:Hev; simpl.
  - apply IH. by apply sameClientSide_step.
  - apply IH. by apply sameClientSide_skip.
Qed.

End Directions.

(** X16.  Both hooks of the example return normally and keep every raw header,
    in order, behind their own pairs.  Read by name, the client's own
    [User-Agent] is not replaced: the hook's value comes first and the
    client's values follow; the tunnel hook adds [Proxy-Connection] the
    same way; every other name reads as in the raw headers. *)
Theorem example_hooks_keep_raw_headers raw name :
  ∃ http tcp,
    Example.customHttpHeader raw = inr http
    ∧ Example.customTcpHeader raw = inr tcp
    ∧ headerValues name http
      = (if String.eqb "user-agent" name
         then ["baiduboxapp/13.7.0.12 (Baidu; P1 12) NABar/1.0"] else [])
        ++ headerValues name raw
    ∧ headerValues name tcp
      = (if String.eqb "proxy-connection" name then ["Keep-Alive"] else [])
        ++ (if String.eqb "user-agent" name
            then ["baiduboxapp/13.7.0.12 (Baidu; P1 12) NABar/1.0"]
            else [])
        ++ headerValues name raw.
Proof.
  do 2 eexists. split; [reflexivity|]. split; [reflexivity|].
  change (toLowerCase "User-Agent") with "user-agent".
  split.
  - change (headerValues name ("User-Agent" :: ?v :: raw))
      with (if String.eqb "user-agent" name
            then v :: headerValues name raw else headerValues name raw).
    by destruct (String.eqb "user-agent" name).
  - change (headerValues name
              ("Proxy-Connection" :: ?k :: "User-Agent" :: ?v :: raw))
      with (if String.eqb "proxy-connection" name
            then k :: (if String.eqb "user-agent" name
                       then v :: headerValues name raw
                       else headerValues name raw)
            else (if String.eqb "user-agent" name
                  then v :: headerValues name raw
                  else headerValues name raw)).
    by destruct (String.eqb "proxy-connection" name),
         (String.eqb "user-agent" name).
Qed.

(** ** The further properties on the examples *)

Lemma outbound_connection_options_witness :
  ∃ c,
    client (forward (H := specUtils Spec.printable) secureRequest
              ServerResponse.fresh
              (viaWithHook exampleUpstream Example.customHttpHeader))
    = Some c
    ∧ ClientRequest.origin c = "http://upstream.test:443"
    ∧ ClientRequest.fn c = HttpRequest
    ∧ Options.method (ClientRequest.options c) = "POST"
    ∧ Options.localAddress (ClientRequest.options c) = Some "10.0.0.7"
    ∧ Options.family (ClientRequest.options c) = Some 4.
Proof.
  eexists. split; [reflexivity|].
  destruct (outbound_connection_options
              (H := specUtils Spec.printable) secureRequest
              ServerResponse.fresh
              (viaWithHook exampleUpstream Example.customHttpHeader)
              _ eq_refl)
    as (Horigin & Hfn & Hmethod & _ & Haddress & Hfamily & _).
  split; [exact Horigin|]. split; [reflexivity|].
  split; [exact Hmethod|]. split; [exact Haddress | exact Hfamily].
Defined.

Lemma encoder_not_consulted_without_credentials_witness :
  forward (H := specUtils Spec.printable) exampleRequest
    ServerResponse.fresh
    (viaWithHook plainUpstream Example.customHttpHeader)
  = forward (H := refusingUtils) exampleRequest ServerResponse.fresh
      (viaWithHook plainUpstream Example.customHttpHeader).
Proof.
  apply (encoder_not_consulted_without_credentials
           (specUtils Spec.printable) refusingUtils).
  - reflexivity.
  - right. exists plainUpstream. repeat split; reflexivity.
Defined.

Lemma response_callback_writes_valid_status_witness :
  ServerResponse.wire
    (response (specStep directRelay (Response (upstreamResponse 1000 "Odd"))))
  = [Head 502 "Odd" ["Content-Type"; "text/html"]]
  ∧ piping (specStep directRelay (Response (upstreamResponse 1000 "Odd")))
    = true.
Proof.
  destruct (response_callback_writes_valid_status
              (H := specUtils Spec.printable) directRelay _
              (upstreamResponse 1000 "Odd") eq_refl)
    as [[_ [H407 | Hsent]] | (_ & _ & _ & _ & Hwire & Hpiping & _)].
  - discriminate H407.
  - discriminate Hsent.
  - split; [exact Hwire | exact Hpiping].
Defined.

Lemma one_head_then_body_witness :
  let after :=
    response
      (specRun proxiedRelay
         [Response (upstreamResponse 200 "OK"); Data "a";
          ClientError ECONNREFUSED; Data "b";
          Response (upstreamResponse 500 "Late"); PipelineEnd None;
          ClientError ETIMEDOUT]) in
  (ServerResponse.headersSent after = false ∧ ServerResponse.wire after = [])
  ∨ (ServerResponse.headersSent after = true
     ∧ ∃ status reason headers chunks,
         ServerResponse.wire after
         = Head status reason headers :: (Body <$> chunks)).
Proof.
  exact (one_head_then_body
           (H := specUtils Spec.printable) exampleRequest
           ServerResponse.fresh (via exampleUpstream)
           [Response (upstreamResponse 200 "OK"); Data "a";
            ClientError ECONNREFUSED; Data "b";
            Response (upstreamResponse 500 "Late"); PipelineEnd None;
            ClientError ETIMEDOUT] eq_refl).
Defined.

Lemma no_error_response_while_piping_witness :
  let st :=
    specRun directRelay [Response (upstreamResponse 200 "OK"); Data "a"] in
  piping st = true ∧ specStep st (ClientError ECONNREFUSED) = st.
Proof.
  split; [reflexivity|].
  exact (proj2 (no_error_response_while_piping
                  (H := specUtils Spec.printable) exampleRequest
                  ServerResponse.fresh direct
                  [Response (upstreamResponse 200 "OK"); Data "a"] eq_refl)
               ECONNREFUSED).
Defined.

Lemma ended_response_is_final_witness :
  let st := specStep directRelay (ClientError ENOTFOUND) in
  ServerResponse.phase (response st) = Ended
  ∧ response (specRun st [Response (upstreamResponse 200 "OK"); Data "a";
                          PipelineEnd None; ClientError ETIMEDOUT])
    = response st.
Proof.
  split; [reflexivity|].
  exact (ended_response_is_final
           (H := specUtils Spec.printable)
           (specStep directRelay (ClientError ENOTFOUND))
           [Response (upstreamResponse 200 "OK"); Data "a";
            PipelineEnd None; ClientError ETIMEDOUT] eq_refl).
Defined.

Lemma rejected_only_for_credentials_witness :
  promise (specRun proxiedRelay
             [Response (upstreamResponse 407 "Proxy Authentication Required");
              ClientError ECONNREFUSED])
  = Rejected ERR_407
  ∧ (ERR_407 = ERR_407
     ∨ ∃ p, HandlerOpts.upstreamProxyUrlParsed (via exampleUpstream) = Some p
            ∧ Spec.getBasicAuthorizationHeader Spec.printable p
              = inl ERR_407).
Proof.
  split; [reflexivity|].
  exact (rejected_only_for_credentials
           (H := specUtils Spec.printable) exampleRequest
           ServerResponse.fresh (via exampleUpstream)
           [Response (upstreamResponse 407 "Proxy Authentication Required");
            ClientError ECONNREFUSED] ERR_407 eq_refl).
Defined.


Lemma relayed_response_witness :
  let st :=
    specRun directRelay
      [Response (upstreamResponse 1000 "Odd"); Data "<html>"; Data "</html>";
       PipelineEnd None] in
  ServerResponse.wire (response st)
  = [Head 502 "Odd" ["Content-Type"; "text/html"];
     Body "<html>"; Body "</html>"]
  ∧ ServerResponse.phase (response st) = Ended
  ∧ promise st = Fulfilled.
Proof.
  destruct (relayed_response
              (H := specUtils Spec.printable) directRelay _
              (upstreamResponse 1000 "Odd") ["<html>"; "</html>"] None
              eq_refl eq_refl) as (Hwire & Hphase & Hpromise & _).
  { simpl. lia. }
  split; [exact Hwire | split; [exact Hphase | exact Hpromise]].
Defined.

Lemma error_answer_is_final_witness :
  let st :=
    specRun directRelay
      [ClientError ENOTFOUND; Response (upstreamResponse 200 "OK");
       ClientError ETIMEDOUT] in
  ServerResponse.wire (response st)
  = [Head 404 "Not Found" ["content-type"; "text/plain; charset=utf-8"];
     Body "Not Found"]
  ∧ promise st = Fulfilled.
Proof.
  destruct (error_answer_is_final
              (H := specUtils Spec.printable) directRelay _ ENOTFOUND
              [Response (upstreamResponse 200 "OK"); ClientError ETIMEDOUT]
              eq_refl eq_refl) as ((phrase & Hphrase & Hwire) & _ & Hpromise).
  change (Some "Not Found" = Some phrase) in Hphrase.
  injection Hphrase as <-.
  split; [exact Hwire | exact Hpromise].
Defined.

Lemma request_body_piped_in_order_witness :
  ∃ c,
    client (specRun proxiedRelay
              [Socket; RequestData "a=1"; Response (upstreamResponse 200 "OK");
               RequestData "&b=2"])
    = Some c
    ∧ ClientRequest.piped c = ["a=1"; "&b=2"]
    ∧ Options.path (ClientRequest.options c)
      = Some "http://example.test/page".
Proof.
  destruct (request_body_piped_in_order
              (H := specUtils Spec.printable)
              [Socket; RequestData "a=1";
               Response (upstreamResponse 200 "OK"); RequestData "&b=2"]
              proxiedRelay _ eq_refl)
    as (c & Hc & _ & _ & Hoptions & Hpiped).
  exists c. split; [exact Hc|]. split; [exact Hpiped|].
  by rewrite Hoptions.
Defined.

